(** * hypercraft: emulated-MMIO registry, virtio-blk request path, vCPU creation

    Shallow embedding of [src/device/emu.rs], [src/device/virtio/blk.rs] and
    [VCpu::create] of [src/arch/riscv/vcpu.rs].

    Machine integers are [Z].  A Rust computation either returns a value,
    panics, or never returns (a spin lock that is already held, a descriptor
    chain that loops); [outcome] records which. *)

From Stdlib Require Import ZArith List String Bool Lia.
Import ListNotations.
Open Scope Z_scope.

Inductive outcome (A : Type) : Type :=
| Done (a : A)
| Panicked (msg : string)
| NoReturn.
Arguments Done {A} a.
Arguments Panicked {A} msg.
Arguments NoReturn {A}.

Definition bind {A B} (o : outcome A) (k : A -> outcome B) : outcome B :=
  match o with
  | Done a => k a
  | Panicked m => Panicked m
  | NoReturn => NoReturn
  end.

Notation "x <- c ;; k" := (bind c (fun x => k))
  (at level 61, c at next level, right associativity).

Definition USIZE_MOD : Z := 2 ^ 64.
Definition U32_MOD : Z := 2 ^ 32.

(** Rust's message for an arithmetic underflow when overflow checks are on. *)
Definition sub_overflow_msg : string := "attempt to subtract with overflow".

(** [a - b] on [usize].  [ovf] is the build's [overflow-checks] setting:
    when it is on an underflow panics, otherwise it wraps around. *)
Definition usize_sub (ovf : bool) (a b : Z) : outcome Z :=
  if b <=? a then Done (a - b)
  else if ovf then Panicked sub_overflow_msg
  else Done ((a - b) mod USIZE_MOD).

(** ** src/device/emu.rs *)
Module Emu.

Definition EMU_DEV_NUM_MAX : Z := 32.

Inductive EmuDeviceType := EmuDeviceTVirtioBlk | EmuDeviceTVirtioNet.

(** A handler is a Rust function pointer [fn(usize, &EmuContext) -> bool];
    it is named here by an identifier, its behaviour is supplied to
    [emu_handler] as [handler_sem]. *)
Definition EmuDevHandler := Z.

Record EmuContext := mkEmuContext {
  address : Z; width : Z; write : bool; sign_ext : bool; reg : Z; reg_width : Z }.

Record EmuDevEntry := mkEmuDevEntry {
  emu_type : EmuDeviceType; id : Z; ipa : Z; size : Z; handler : EmuDevHandler }.

(** The global [EMU_DEVS_LIST: Mutex<Vec<EmuDevEntry>>], with its spin lock,
    and the rest of the machine ([ext]), which handlers may also change. *)
Record Machine (W : Type) := mkMachine {
  emu_devs_list : list EmuDevEntry; emu_devs_locked : bool; ext : W }.
Arguments mkMachine {W}.
Arguments emu_devs_list {W}.
Arguments emu_devs_locked {W}.
Arguments ext {W}.

Definition set_locked {W} (b : bool) (m : Machine W) : Machine W :=
  mkMachine (emu_devs_list m) b (ext m).

(** Modelled from the spec: [crate::arch::in_range] (not under src/).  The
    spec states that an entry's range is [[base, base+size)], and the source
    passes [size - 1] as the last argument, so [in_range addr start len]
    holds when [start <= addr <= start + len]. *)
Definition in_range (addr start len : Z) : bool :=
  (start <=? addr) && (addr <=? start + len).

(** The [for] loop of [emu_handler]: the first entry whose range holds
    [addr]. *)
Fixpoint emu_scan (ovf : bool) (addr : Z) (l : list EmuDevEntry)
  : outcome (option EmuDevEntry) :=
  match l with
  | [] => Done None
  | emu_dev :: rest =>
      last <- usize_sub ovf (size emu_dev) 1 ;;
      if in_range addr (ipa emu_dev) last then Done (Some emu_dev)
      else emu_scan ovf addr rest
  end.

Section Handler.
Context {W : Type}.
Variable handler_sem :
  EmuDevHandler -> Z -> EmuContext -> Machine W -> outcome (bool * Machine W).

(** [emu_handler]: take the lock, scan, drop the lock, then call the
    handler of the entry found. *)
Definition emu_handler (ovf : bool) (emu_ctx : EmuContext) (m : Machine W)
  : outcome (bool * Machine W) :=
  if emu_devs_locked m then NoReturn
  else
    let m1 := set_locked true m in
    found <- emu_scan ovf (address emu_ctx) (emu_devs_list m1) ;;
    match found with
    | Some emu_dev =>
        let m2 := set_locked false m1 in
        handler_sem (handler emu_dev) (id emu_dev) emu_ctx m2
    | None => Done (false, set_locked false m1)
    end.
End Handler.

Definition full_msg : string := "emu_register_dev: can't register more devs".
Definition dup_msg : string := "emu_register_dev: duplicated emul address region".

(** The [for] loop of [emu_register_dev]; [||] evaluates its right operand,
    and with it [size - 1], only when the left one is false. *)
Fixpoint register_scan (ovf : bool) (address size0 : Z) (l : list EmuDevEntry)
  : outcome unit :=
  match l with
  | [] => Done tt
  | emu_dev :: rest =>
      l1 <- usize_sub ovf (size emu_dev) 1 ;;
      if in_range address (ipa emu_dev) l1 then Panicked dup_msg
      else
        l2 <- usize_sub ovf size0 1 ;;
        if in_range (ipa emu_dev) address l2 then Panicked dup_msg
        else register_scan ovf address size0 rest
  end.

Definition emu_register_dev {W} (ovf : bool) (emu_type0 : EmuDeviceType)
    (dev_id address size0 : Z) (handler0 : EmuDevHandler) (m : Machine W)
  : outcome (unit * Machine W) :=
  if emu_devs_locked m then NoReturn
  else if EMU_DEV_NUM_MAX <=? Z.of_nat (List.length (emu_devs_list m)) then
    Panicked full_msg
  else
    _ <- register_scan ovf address size0 (emu_devs_list m) ;;
    Done (tt, mkMachine (emu_devs_list m ++
                           [mkEmuDevEntry emu_type0 dev_id address size0 handler0])%list
                        false (ext m)).

End Emu.

(** ** [VCpu::create] of src/arch/riscv/vcpu.rs *)
Module Vcpu.

(** Modelled from the spec: [GeneralPurposeRegisters] (src/arch/riscv/regs.rs
    is not under src/).  The spec gives 31 stored registers, indexed 1..31;
    the asm offsets are [index * 8] from the start of the array, so it is
    modelled as 32 [u64] slots, slot 0 standing for the hard-wired zero
    register.  Its [Default] is all zeros. *)
Definition GeneralPurposeRegisters := list Z.
Definition gprs_default : GeneralPurposeRegisters := repeat 0 32.

Record HypervisorCpuState := mkHypervisorCpuState {
  h_gprs : GeneralPurposeRegisters; h_sstatus : Z; h_hstatus : Z;
  h_scounteren : Z; h_stvec : Z; h_sscratch : Z }.

Record GuestCpuState := mkGuestCpuState {
  g_gprs : GeneralPurposeRegisters; g_sstatus : Z; g_hstatus : Z;
  g_scounteren : Z; g_sepc : Z }.

Record GuestVsCsrs := mkGuestVsCsrs {
  htimedelta : Z; vsstatus : Z; vsie : Z; vstvec : Z; vsscratch : Z;
  vsepc : Z; vscause : Z; vstval : Z; vsatp : Z; vstimecmp : Z }.

Record GuestVirtualHsCsrs := mkGuestVirtualHsCsrs { hie : Z; hgeie : Z; hgatp : Z }.

Record VmCpuTrapState := mkVmCpuTrapState { scause : Z; stval : Z; htval : Z; htinst : Z }.

Record VmCpuRegisters := mkVmCpuRegisters {
  hyp_regs : HypervisorCpuState; guest_regs : GuestCpuState;
  vs_csrs : GuestVsCsrs; virtual_hs_csrs : GuestVirtualHsCsrs;
  trap_csrs : VmCpuTrapState }.

(** [#[derive(Default)]] on every part of the layout. *)
Definition HypervisorCpuState_default := mkHypervisorCpuState gprs_default 0 0 0 0 0.
Definition GuestCpuState_default := mkGuestCpuState gprs_default 0 0 0 0.
Definition GuestVsCsrs_default := mkGuestVsCsrs 0 0 0 0 0 0 0 0 0 0.
Definition GuestVirtualHsCsrs_default := mkGuestVirtualHsCsrs 0 0 0.
Definition VmCpuTrapState_default := mkVmCpuTrapState 0 0 0 0.
Definition VmCpuRegisters_default :=
  mkVmCpuRegisters HypervisorCpuState_default GuestCpuState_default
    GuestVsCsrs_default GuestVirtualHsCsrs_default VmCpuTrapState_default.

(** Bit positions used by the [riscv] crate: [hstatus.SPV] is bit 7,
    [sstatus.SPP] is bit 8 (1 = Supervisor, 0 = User). *)
Definition HSTATUS_SPV_BIT : Z := 7.
Definition SSTATUS_SPP_BIT : Z := 8.

Inductive SPP := User | Supervisor.

(** [Hstatus::set_spv] and [Sstatus::set_spp] on a value read from the CSR. *)
Definition set_spv (bits : Z) (v : bool) : Z :=
  if v then Z.setbit bits HSTATUS_SPV_BIT else Z.clearbit bits HSTATUS_SPV_BIT.
Definition set_spp (bits : Z) (spp : SPP) : Z :=
  match spp with
  | Supervisor => Z.setbit bits SSTATUS_SPP_BIT
  | User => Z.clearbit bits SSTATUS_SPP_BIT
  end.

Record VCpu (Guest : Type) := mkVCpu { regs : VmCpuRegisters; guest : Guest }.
Arguments mkVCpu {Guest}.
Arguments regs {Guest}.
Arguments guest {Guest}.

(** [VCpu::create]; [hstatus_now] and [sstatus_now] are what
    [hstatus::read()] and [sstatus::read()] return on the current hart. *)
Definition create {Guest} (hstatus_now sstatus_now : Z)
    (_entry _sp _hgatp _kernel_sp _trap_handler : Z) (g : Guest) : VCpu Guest :=
  let r0 := VmCpuRegisters_default in
  let hstatus := set_spv hstatus_now true in
  let gr1 := guest_regs r0 in
  let gr2 := mkGuestCpuState (g_gprs gr1) (g_sstatus gr1) hstatus
               (g_scounteren gr1) (g_sepc gr1) in
  let sstatus := set_spp sstatus_now Supervisor in
  let gr3 := mkGuestCpuState (g_gprs gr2) sstatus (g_hstatus gr2)
               (g_scounteren gr2) (g_sepc gr2) in
  let r := mkVmCpuRegisters (hyp_regs r0) gr3 (vs_csrs r0)
             (virtual_hs_csrs r0) (trap_csrs r0) in
  mkVCpu r g.

End Vcpu.

(** ** src/device/virtio/blk.rs *)
Module Blk.

Definition SECTOR_BSIZE : Z := 512.
Definition SECTORS_NUM : Z := 32.

Definition VIRTIO_BLK_T_IN : Z := 0.
Definition VIRTIO_BLK_T_OUT : Z := 1.
Definition VIRTIO_BLK_T_FLUSH : Z := 4.
Definition VIRTIO_BLK_T_GET_ID : Z := 8.

Definition VIRTIO_BLK_S_OK : Z := 0.
Definition VIRTIO_BLK_S_UNSUPP : Z := 2.

(** Modelled from the spec: the descriptor flag bits of the virtqueue
    ([VIRTQ_DESC_F_*], defined in the queue module, not under src/), with
    the split-ring values: "next" is bit 0, "device-writable" is bit 1. *)
Definition VIRTQ_DESC_F_NEXT : Z := 1.
Definition VIRTQ_DESC_F_WRITE : Z := 2.

Record VirtqDesc := mkVirtqDesc {
  d_addr : Z; d_len : Z; d_flags : Z; d_next : Z }.
Definition desc_zero := mkVirtqDesc 0 0 0 0.

(** Modelled from the spec: [Virtq] (src/device/virtio/queue.rs is not
    under src/), following the split-virtqueue contract of section 4.3.
    [avail_ring] lists, in order, every chain head the driver has published;
    [avail_idx] is its length.  [used_ring] lists the posted completions
    [(len, chain head)]; [update_used_ring] fails once [used_cap] entries are
    there.  A descriptor index past the table reads as an all-zero
    descriptor. *)
Record Virtq := mkVirtq {
  vq_ready : Z;
  desc_table : list VirtqDesc;
  avail_ring : list Z;
  last_avail_idx : nat;
  used_ring : list (Z * Z);
  used_cap : nat;
  notify_enabled : bool }.

Definition avail_idx (q : Virtq) : nat := List.length (avail_ring q).

Definition pop_avail_desc_idx (q : Virtq) (avail_idx0 : nat) : option Z * Virtq :=
  if (last_avail_idx q <? avail_idx0)%nat then
    (Some (nth (last_avail_idx q) (avail_ring q) 0),
     mkVirtq (vq_ready q) (desc_table q) (avail_ring q) (S (last_avail_idx q))
       (used_ring q) (used_cap q) (notify_enabled q))
  else (None, q).

Definition desc (q : Virtq) (idx : Z) : VirtqDesc :=
  nth (Z.to_nat idx) (desc_table q) desc_zero.
Definition desc_addr q idx := d_addr (desc q idx).
Definition desc_len q idx := d_len (desc q idx).
Definition desc_flags q idx := d_flags (desc q idx).
Definition desc_next q idx := d_next (desc q idx).
Definition desc_has_next q idx :=
  negb (Z.land (desc_flags q idx) VIRTQ_DESC_F_NEXT =? 0).
Definition desc_is_writable q idx :=
  negb (Z.land (desc_flags q idx) VIRTQ_DESC_F_WRITE =? 0).

Definition set_notify (q : Virtq) (b : bool) : Virtq :=
  mkVirtq (vq_ready q) (desc_table q) (avail_ring q) (last_avail_idx q)
    (used_ring q) (used_cap q) b.
Definition disable_notify q := set_notify q false.
Definition enable_notify q := set_notify q true.
Definition check_avail_idx (q : Virtq) (avail_idx0 : nat) : bool :=
  Nat.eqb (last_avail_idx q) avail_idx0.

Definition update_used_ring (q : Virtq) (len0 head : Z) : bool * Virtq :=
  if (List.length (used_ring q) <? used_cap q)%nat then
    (true, mkVirtq (vq_ready q) (desc_table q) (avail_ring q) (last_avail_idx q)
             (used_ring q ++ [(len0, head)])%list (used_cap q) (notify_enabled q))
  else (false, q).

(** Host memory (bytes at host-physical addresses, where the guest buffers
    are once translated), the backing array [BLOCK_DEVICE], and the queue. *)
Record BlkMachine := mkBlkMachine { vq : Virtq; mem : Z -> Z; disk : Z -> Z }.

Definition set_vq m q := mkBlkMachine q (mem m) (disk m).
Definition set_mem m f := mkBlkMachine (vq m) f (disk m).
Definition set_disk m f := mkBlkMachine (vq m) (mem m) f.

Definition store_byte (f : Z -> Z) (a v : Z) : Z -> Z :=
  fun x => if x =? a then v else f x.

(** [core::ptr::copy_nonoverlapping(src, dst, count)] from [src_f] into
    [dst_f]. *)
Definition copy_nonoverlapping (src_f : Z -> Z) (src : Z) (dst_f : Z -> Z)
    (dst count : Z) : Z -> Z :=
  fun a => if (dst <=? a) && (a <? dst + count) then src_f (src + (a - dst))
           else dst_f a.

(** Little-endian load of [n] bytes, for reading the [#[repr(C)]] request
    header in guest memory. *)
Fixpoint load_le (f : Z -> Z) (a : Z) (n : nat) : Z :=
  match n with
  | O => 0
  | S n' => f a + 256 * load_le f (a + 1) n'
  end.

Definition usize_add (ovf : bool) (a b : Z) : outcome Z :=
  if a + b <? USIZE_MOD then Done (a + b)
  else if ovf then Panicked "attempt to add with overflow"
  else Done ((a + b) mod USIZE_MOD).
Definition usize_mul (ovf : bool) (a b : Z) : outcome Z :=
  if a * b <? USIZE_MOD then Done (a * b)
  else if ovf then Panicked "attempt to multiply with overflow"
  else Done ((a * b) mod USIZE_MOD).
Definition u32_add (ovf : bool) (a b : Z) : outcome Z :=
  if a + b <? U32_MOD then Done (a + b)
  else if ovf then Panicked "attempt to add with overflow"
  else Done ((a + b) mod U32_MOD).

Definition index_oob_msg : string := "index out of bounds".
Definition exceed_capacity : Z := SECTOR_BSIZE * SECTORS_NUM.

(** [FakeBlkDevice::blk_read]: [&BLOCK_DEVICE[offset]] is bounds-checked;
    the copy itself is not. *)
Definition blk_read (ovf : bool) (offset count buf : Z) (m : BlkMachine)
  : outcome (bool * BlkMachine) :=
  e <- usize_add ovf offset count ;;
  if exceed_capacity <=? e then Done (false, m)
  else if exceed_capacity <=? offset then Panicked index_oob_msg
  else Done (true, set_mem m (copy_nonoverlapping (disk m) offset (mem m) buf count)).

(** [FakeBlkDevice::blk_write]. *)
Definition blk_write (ovf : bool) (offset count buf : Z) (m : BlkMachine)
  : outcome (bool * BlkMachine) :=
  e <- usize_add ovf offset count ;;
  if exceed_capacity <=? e then Done (false, m)
  else if exceed_capacity <=? offset then Panicked index_oob_msg
  else Done (true, set_disk m (copy_nonoverlapping (mem m) buf (disk m) offset count)).

Record BlkIov := mkBlkIov { data_bg : Z; len : Z }.

Record VirtioBlkReqNode := mkVirtioBlkReqNode {
  req_type : Z; reserved : Z; sector : Z; desc_chain_head_idx : Z;
  iov : list BlkIov; iov_sum_up : Z; iov_total : Z }.

Definition VirtioBlkReqNode_default := mkVirtioBlkReqNode 0 0 0 0 [] 0 0.

Section Requests.

(** [ovf]: the build's [overflow-checks] setting. *)
Variable ovf : bool.

(** The 20 bytes [process_blk_requests] copies from ["virtio-blk-0".as_ptr()]:
    the 12 bytes of the literal, then whatever follows it in the image. *)
Variable id_bytes : Z -> Z.

(** The inner [for aiov in req.iov] loop of [process_blk_requests]; the
    result of each backing-store call is ignored. *)
Fixpoint blk_iovs (rtype offset : Z) (iovs : list BlkIov) (write_len : Z)
    (m : BlkMachine) : outcome (Z * BlkMachine) :=
  match iovs with
  | [] => Done (write_len, m)
  | aiov :: rest =>
      if rtype =? VIRTIO_BLK_T_IN then
        r <- blk_read ovf offset (len aiov) (data_bg aiov) m ;;
        wl <- u32_add ovf write_len (len aiov) ;;
        off <- usize_add ovf offset (len aiov) ;;
        blk_iovs rtype off rest wl (snd r)
      else
        r <- blk_write ovf offset (len aiov) (data_bg aiov) m ;;
        off <- usize_add ovf offset (len aiov) ;;
        blk_iovs rtype off rest write_len (snd r)
  end.

Definition unexpected_type_msg : string := "it shouldb't panic in process blk requests".

(** The [match req.req_type] of [process_blk_requests]: the number of bytes
    to report and the new machine. *)
Definition execute_req (req : VirtioBlkReqNode) (m : BlkMachine)
  : outcome (Z * BlkMachine) :=
  if (req_type req =? VIRTIO_BLK_T_IN) || (req_type req =? VIRTIO_BLK_T_OUT) then
    offset <- usize_mul ovf (sector req) SECTOR_BSIZE ;;
    blk_iovs (req_type req) offset (iov req) 0 m
  else if req_type req =? VIRTIO_BLK_T_FLUSH then Done (0, m)
  else if req_type req =? VIRTIO_BLK_T_GET_ID then
    match iov req with
    | [] => Panicked index_oob_msg
    | aiov :: _ =>
        Done (0, set_mem m (copy_nonoverlapping id_bytes 0 (mem m) (data_bg aiov) 20))
    end
  else Panicked unexpected_type_msg.

Fixpoint process_blk_requests (req_list : list VirtioBlkReqNode) (m : BlkMachine)
  : outcome (bool * BlkMachine) :=
  match req_list with
  | [] => Done (true, m)
  | req :: rest =>
      r <- execute_req req m ;;
      let '(write_len, m1) := r in
      let '(ok, q) := update_used_ring (vq m1) write_len (desc_chain_head_idx req) in
      if ok then process_blk_requests rest (set_vq m1 q)
      else Done (false, set_vq m1 q)
  end.

(** The external translation [vm_ipa2pa]; 0 is its failure value. *)
Variable vm_ipa2pa : Z -> Z.

Definition with_header (n : VirtioBlkReqNode) (t s : Z) : VirtioBlkReqNode :=
  mkVirtioBlkReqNode t (reserved n) s (desc_chain_head_idx n) (iov n)
    (iov_sum_up n) (iov_total n).
Definition push_iov (n : VirtioBlkReqNode) (v : BlkIov) (sum : Z) : VirtioBlkReqNode :=
  mkVirtioBlkReqNode (req_type n) (reserved n) (sector n) (desc_chain_head_idx n)
    (iov n ++ [v])%list sum (iov_total n).

(** The inner [loop] of [virtio_blk_notify_handler] over one descriptor
    chain.  [None] is the handler's [return false]; [Some req_node] is the
    [break] after the status byte is written.  [fuel] bounds the number of
    descriptors visited: the handler gives one more than the table size, so
    running out means the chain revisits a descriptor, and the Rust loop,
    whose control flow depends only on the index from then on, never ends. *)
Fixpoint walk_chain (fuel : nat) (m : BlkMachine) (next_desc_idx : Z)
    (head : bool) (req_node : VirtioBlkReqNode)
  : outcome (option VirtioBlkReqNode * BlkMachine) :=
  match fuel with
  | O => NoReturn
  | S fuel' =>
    let q := vq m in
    if desc_has_next q next_desc_idx then
      if head then
        if desc_is_writable q next_desc_idx then Done (None, m)
        else
          let vreq_addr := vm_ipa2pa (desc_addr q next_desc_idx) in
          if vreq_addr =? 0 then Done (None, m)
          else
            let node := with_header req_node (load_le (mem m) vreq_addr 4)
                          (load_le (mem m) (vreq_addr + 8) 8) in
            walk_chain fuel' m (desc_next q next_desc_idx) false node
      else
        if Z.shiftr (Z.land (desc_flags q next_desc_idx) VIRTQ_DESC_F_WRITE) 1
           =? req_type req_node then Done (None, m)
        else
          let data_bg0 := vm_ipa2pa (desc_addr q next_desc_idx) in
          if data_bg0 =? 0 then Done (None, m)
          else
            let v := mkBlkIov data_bg0 (desc_len q next_desc_idx) in
            sum <- usize_add ovf (iov_sum_up req_node) (len v) ;;
            walk_chain fuel' m (desc_next q next_desc_idx) false (push_iov req_node v sum)
    else
      if negb (desc_is_writable q next_desc_idx) then Done (None, m)
      else
        let vstatus_addr := vm_ipa2pa (desc_addr q next_desc_idx) in
        if vstatus_addr =? 0 then Done (None, m)
        else
          let status :=
            if (1 <? req_type req_node) && negb (req_type req_node =? VIRTIO_BLK_T_GET_ID)
            then VIRTIO_BLK_S_UNSUPP else VIRTIO_BLK_S_OK in
          Done (Some req_node, set_mem m (store_byte (mem m) vstatus_addr status))
  end.

Definition start_node (head_idx : Z) : VirtioBlkReqNode :=
  mkVirtioBlkReqNode 0 0 0 head_idx [] 0 0.
Definition finish_node (n : VirtioBlkReqNode) : VirtioBlkReqNode :=
  mkVirtioBlkReqNode (req_type n) (reserved n) (sector n) (desc_chain_head_idx n)
    (iov n) (iov_sum_up n) (iov_sum_up n).

(** The [while next_desc_idx_opt.is_some()] loop.  Every iteration pops one
    entry below [avail_idx0], so [fuel] = [S avail_idx0] is never exhausted. *)
Fixpoint drain (fuel : nat) (avail_idx0 : nat) (next_desc_idx_opt : option Z)
    (req_list : list VirtioBlkReqNode) (m : BlkMachine)
  : outcome (option (list VirtioBlkReqNode) * BlkMachine) :=
  match next_desc_idx_opt with
  | None => Done (Some req_list, m)
  | Some next_desc_idx =>
    match fuel with
    | O => NoReturn
    | S fuel' =>
      let q1 := disable_notify (vq m) in
      let q2 := if check_avail_idx q1 avail_idx0 then enable_notify q1 else q1 in
      let m1 := set_vq m q2 in
      r <- walk_chain (S (List.length (desc_table q2))) m1 next_desc_idx true
             (start_node next_desc_idx) ;;
      match r with
      | (None, m2) => Done (None, m2)
      | (Some req_node, m2) =>
          let '(opt, q3) := pop_avail_desc_idx (vq m2) avail_idx0 in
          drain fuel' avail_idx0 opt (req_list ++ [finish_node req_node])%list
            (set_vq m2 q3)
      end
    end
  end.

Definition virtio_blk_notify_handler (m : BlkMachine) : outcome (bool * BlkMachine) :=
  let avail_idx0 := avail_idx (vq m) in
  if vq_ready (vq m) =? 0 then Done (false, m)
  else
    let '(opt, q) := pop_avail_desc_idx (vq m) avail_idx0 in
    r <- drain (S avail_idx0) avail_idx0 opt [] (set_vq m q) ;;
    match r with
    | (None, m1) => Done (false, m1)
    | (Some req_list, m1) =>
        r2 <- process_blk_requests req_list m1 ;;
        if fst r2 then Done (true, snd r2) else Done (false, snd r2)
    end.

End Requests.

End Blk.

(** ** Statements of the registry properties, in terms of half-open ranges *)
Module EmuSpec.
Import Emu.

(** [[a, a+s)] and [[b, b+t)] share an address. *)
Definition ranges_overlap (a s b t : Z) : Prop :=
  exists x, a <= x < a + s /\ b <= x < b + t.

(** The first entry, in table order, whose range [[ipa, ipa+size)] holds
    [a]. *)
Fixpoint first_containing (a : Z) (l : list EmuDevEntry) : option EmuDevEntry :=
  match l with
  | [] => None
  | e :: rest =>
      if (ipa e <=? a) && (a <? ipa e + size e) then Some e
      else first_containing a rest
  end.

(** A registration: kind, id, base, size, handler. *)
Record Registration := mkRegistration {
  r_type : EmuDeviceType; r_id : Z; r_base : Z; r_size : Z; r_handler : EmuDevHandler }.

Definition entry_of (r : Registration) : EmuDevEntry :=
  mkEmuDevEntry (r_type r) (r_id r) (r_base r) (r_size r) (r_handler r).

Fixpoint register_all {W} (ovf : bool) (rs : list Registration) (m : Machine W)
  : outcome (unit * Machine W) :=
  match rs with
  | [] => Done (tt, m)
  | r :: rest =>
      x <- emu_register_dev ovf (r_type r) (r_id r) (r_base r) (r_size r) (r_handler r) m ;;
      register_all ovf rest (snd x)
  end.

(** The scan of [emu_handler] evaluates [size - 1] on a size-0 entry. *)
Definition reaches_zero_handler (a : Z) (l : list EmuDevEntry) : Prop :=
  exists pre e post, l = (pre ++ e :: post)%list /\
    Forall (fun d => 1 <= size d /\ ~ (ipa d <= a < ipa d + size d)) pre /\
    size e = 0.

(** The scan of [emu_register_dev] evaluates [size - 1] on 0: on a size-0
    entry, or on a new size 0 once an entry does not hold the new base. *)
Definition reaches_zero_register (a size0 : Z) (l : list EmuDevEntry) : Prop :=
  exists pre e post, l = (pre ++ e :: post)%list /\
    Forall (fun d => 1 <= size d /\ 1 <= size0 /\
                     ~ (ipa d <= a < ipa d + size d) /\ ~ (a <= ipa d < a + size0)) pre /\
    (size e = 0 \/ (1 <= size e /\ ~ (ipa e <= a < ipa e + size e) /\ size0 = 0)).

End EmuSpec.

(** ** Concrete notifications used to exhibit the behaviour of the code *)
Module Scenarios.
Import Blk.

Definition zero_mem : Z -> Z := fun _ => 0.
Definition identity_ipa2pa : Z -> Z := fun a => a.

(** One chain made of a single descriptor, device-writable, with no
    successor. *)
Definition single_writable_queue : Virtq :=
  mkVirtq 1 [mkVirtqDesc 0x200 1 VIRTQ_DESC_F_WRITE 0] [0] 0 [] 8 true.
Definition single_writable_machine : BlkMachine :=
  mkBlkMachine single_writable_queue zero_mem zero_mem.

(** A well-formed two-descriptor chain (header, status) whose header holds
    request type 2. *)
Definition type2_queue : Virtq :=
  mkVirtq 1 [mkVirtqDesc 0x100 16 VIRTQ_DESC_F_NEXT 1;
             mkVirtqDesc 0x200 1 VIRTQ_DESC_F_WRITE 0] [0] 0 [] 8 true.
Definition type2_mem : Z -> Z := fun a => if a =? 0x100 then 2 else 0.
Definition type2_machine : BlkMachine := mkBlkMachine type2_queue type2_mem zero_mem.

(** Two chains in one notification: an OUT of one 512-byte buffer at
    0x1000 (all bytes 0xAB) to sector [sec], then an IN of one 512-byte
    buffer at 0x2000 from sector [sec].  Headers are at 0x100 and 0x400, status bytes
    at 0x300 and 0x500. *)
Definition round_trip_queue : Virtq :=
  mkVirtq 1 [mkVirtqDesc 0x100 16 VIRTQ_DESC_F_NEXT 1;
             mkVirtqDesc 0x1000 512 VIRTQ_DESC_F_NEXT 2;
             mkVirtqDesc 0x300 1 VIRTQ_DESC_F_WRITE 0;
             mkVirtqDesc 0x400 16 VIRTQ_DESC_F_NEXT 4;
             mkVirtqDesc 0x2000 512 (Z.lor VIRTQ_DESC_F_NEXT VIRTQ_DESC_F_WRITE) 5;
             mkVirtqDesc 0x500 1 VIRTQ_DESC_F_WRITE 0] [0; 3] 0 [] 8 true.
Definition round_trip_mem (sec : Z) : Z -> Z := fun a =>
  if a =? 0x100 then VIRTIO_BLK_T_OUT
  else if a =? 0x108 then sec
  else if a =? 0x400 then VIRTIO_BLK_T_IN
  else if a =? 0x408 then sec
  else if (0x1000 <=? a) && (a <? 0x1200) then 0xAB
  else 0.
Definition round_trip_machine (sec : Z) : BlkMachine :=
  mkBlkMachine round_trip_queue (round_trip_mem sec) zero_mem.

End Scenarios.

(** ** [#[repr(C)]] layout, as [offset_of!] and [size_of] compute it

    A type is described by its size and alignment; a struct by the list of
    its named fields in declaration order.  Each field is placed at the first
    offset at or after the end of the previous one that is a multiple of its
    alignment; the struct's alignment is the largest field alignment, and its
    size is the end of the last field rounded up to that alignment. *)
Module ReprC.

Definition ty := (Z * Z)%type.
Definition ty_size (t : ty) : Z := fst t.
Definition ty_align (t : ty) : Z := snd t.

Definition u8 : ty := (1, 1).
Definition u16 : ty := (2, 2).
Definition u32 : ty := (4, 4).
Definition u64 : ty := (8, 8).
(** [usize] on riscv64. *)
Definition usize : ty := (8, 8).
Definition array (t : ty) (n : Z) : ty := (ty_size t * n, ty_align t).

Definition align_up (x a : Z) : Z := (x + a - 1) / a * a.

(** The offset of every field. *)
Fixpoint field_offsets (cur : Z) (fs : list (string * ty)) : list (string * Z) :=
  match fs with
  | [] => []
  | (n, t) :: rest =>
      let o := align_up cur (ty_align t) in
      (n, o) :: field_offsets (o + ty_size t) rest
  end.

Fixpoint fields_end (cur : Z) (fs : list (string * ty)) : Z :=
  match fs with
  | [] => cur
  | (_, t) :: rest => fields_end (align_up cur (ty_align t) + ty_size t) rest
  end.

Definition struct_align (fs : list (string * ty)) : Z :=
  fold_right (fun f acc => Z.max (ty_align (snd f)) acc) 1 fs.

Definition size_of (fs : list (string * ty)) : Z :=
  align_up (fields_end 0 fs) (struct_align fs).

Definition struct_ty (fs : list (string * ty)) : ty := (size_of fs, struct_align fs).

Fixpoint lookup_field (n : string) (l : list (string * Z)) : Z :=
  match l with
  | [] => 0
  | (n', o) :: rest => if String.eqb n n' then o else lookup_field n rest
  end.

(** [offset_of!(T, n)]; every field name used below is a field of [T]. *)
Definition offset_of (fs : list (string * ty)) (n : string) : Z :=
  lookup_field n (field_offsets 0 fs).

End ReprC.

(** ** Register/state layout of src/arch/riscv/vcpu.rs and the offsets
    handed to the guest-switch assembly *)
Module VcpuLayout.
Import ReprC.
Local Open Scope string_scope.
Local Open Scope Z_scope.

(** Modelled from the spec: [GprIndex] (src/arch/riscv/regs.rs is not under
    src/): the 31 general-purpose registers by architectural name, with the
    index of the register [x1..x31] they name. *)
Inductive GprIndex :=
| RA | SP | GP | TP | T0 | T1 | T2 | S0 | S1
| A0 | A1 | A2 | A3 | A4 | A5 | A6 | A7
| S2 | S3 | S4 | S5 | S6 | S7 | S8 | S9 | S10 | S11
| T3 | T4 | T5 | T6.

Definition gpr_index (r : GprIndex) : Z :=
  match r with
  | RA => 1 | SP => 2 | GP => 3 | TP => 4 | T0 => 5 | T1 => 6 | T2 => 7
  | S0 => 8 | S1 => 9 | A0 => 10 | A1 => 11 | A2 => 12 | A3 => 13 | A4 => 14
  | A5 => 15 | A6 => 16 | A7 => 17 | S2 => 18 | S3 => 19 | S4 => 20 | S5 => 21
  | S6 => 22 | S7 => 23 | S8 => 24 | S9 => 25 | S10 => 26 | S11 => 27
  | T3 => 28 | T4 => 29 | T5 => 30 | T6 => 31
  end.

(** Modelled from the spec: [GeneralPurposeRegisters] as 32 [u64] slots
    indexed by [GprIndex], as for [Vcpu.gprs_default]. *)
Definition GeneralPurposeRegisters_ty : ty := array u64 32.

Definition HypervisorCpuState_layout : list (string * ty) :=
  [("gprs", GeneralPurposeRegisters_ty); ("sstatus", u64); ("hstatus", u64);
   ("scounteren", u64); ("stvec", u64); ("sscratch", u64)].
Definition GuestCpuState_layout : list (string * ty) :=
  [("gprs", GeneralPurposeRegisters_ty); ("sstatus", u64); ("hstatus", u64);
   ("scounteren", u64); ("sepc", u64)].
Definition GuestVsCsrs_layout : list (string * ty) :=
  [("htimedelta", u64); ("vsstatus", u64); ("vsie", u64); ("vstvec", u64);
   ("vsscratch", u64); ("vsepc", u64); ("vscause", u64); ("vstval", u64);
   ("vsatp", u64); ("vstimecmp", u64)].
Definition GuestVirtualHsCsrs_layout : list (string * ty) :=
  [("hie", u64); ("hgeie", u64); ("hgatp", u64)].
Definition VmCpuTrapState_layout : list (string * ty) :=
  [("scause", u64); ("stval", u64); ("htval", u64); ("htinst", u64)].
Definition VmCpuRegisters_layout : list (string * ty) :=
  [("hyp_regs", struct_ty HypervisorCpuState_layout);
   ("guest_regs", struct_ty GuestCpuState_layout);
   ("vs_csrs", struct_ty GuestVsCsrs_layout);
   ("virtual_hs_csrs", struct_ty GuestVirtualHsCsrs_layout);
   ("trap_csrs", struct_ty VmCpuTrapState_layout)].

Definition hyp_gpr_offset (index : GprIndex) : Z :=
  offset_of VmCpuRegisters_layout "hyp_regs"
  + offset_of HypervisorCpuState_layout "gprs"
  + gpr_index index * ty_size u64.

Definition guest_gpr_offset (index : GprIndex) : Z :=
  offset_of VmCpuRegisters_layout "guest_regs"
  + offset_of GuestCpuState_layout "gprs"
  + gpr_index index * ty_size u64.

(** The macros [hyp_csr_offset!] and [guest_csr_offset!]. *)
Definition hyp_csr_offset (reg : string) : Z :=
  offset_of VmCpuRegisters_layout "hyp_regs" + offset_of HypervisorCpuState_layout reg.
Definition guest_csr_offset (reg : string) : Z :=
  offset_of VmCpuRegisters_layout "guest_regs" + offset_of GuestCpuState_layout reg.

(** The [const] operands of the [global_asm!] that includes guest.S, in
    order. *)
Definition run_guest_operands : list Z :=
  (map hyp_gpr_offset [RA; GP; TP; S0; S1; A1; A2; A3; A4; A5; A6; A7;
                       S2; S3; S4; S5; S6; S7; S8; S9; S10; S11; SP] ++
   map hyp_csr_offset ["sstatus"; "hstatus"; "scounteren"; "stvec"; "sscratch"] ++
   map guest_gpr_offset [RA; GP; TP; S0; S1; A0; A1; A2; A3; A4; A5; A6; A7;
                         S2; S3; S4; S5; S6; S7; S8; S9; S10; S11;
                         T0; T1; T2; T3; T4; T5; T6; SP] ++
   map guest_csr_offset ["sstatus"; "hstatus"; "scounteren"; "sepc"])%list.

End VcpuLayout.

(** ** The block device's configuration space: [BlkDescInner] and
    [BlkDesc::offset_data] of src/device/virtio/blk.rs *)
Module BlkConfig.
Import ReprC.
Local Open Scope string_scope.
Local Open Scope Z_scope.

(** Modelled from the spec: [PAGE_SIZE_4K] ([crate::memory], not under
    src/), a 4 KiB page. *)
Definition PAGE_SIZE_4K : Z := 4096.
Definition BLOCKIF_SIZE_MAX : Z := 128 * PAGE_SIZE_4K.
Definition BLOCKIF_IOV_MAX : Z := 512.

Record BlkGeometry := mkBlkGeometry { cylinders : Z; heads : Z; sectors : Z }.
Record BlkTopology := mkBlkTopology {
  physical_block_exp : Z; alignment_offset : Z; min_io_size : Z; opt_io_size : Z }.

Record BlkDescInner := mkBlkDescInner {
  capacity : Z; size_max : Z; seg_max : Z; geometry : BlkGeometry; blk_size : Z;
  topology : BlkTopology; writeback : Z; unused0 : list Z;
  max_discard_sectors : Z; max_discard_seg : Z; discard_sector_alignment : Z;
  max_write_zeroes_sectors : Z; max_write_zeroes_seg : Z;
  write_zeroes_may_unmap : Z; unused1 : list Z }.

Definition BlkGeometry_default := mkBlkGeometry 0 0 0.
Definition BlkTopology_default := mkBlkTopology 0 0 0 0.
Definition BlkDescInner_default : BlkDescInner :=
  mkBlkDescInner 0 0 0 BlkGeometry_default 0 BlkTopology_default 0 [0; 0; 0]
    0 0 0 0 0 0 [0; 0; 0].

(** [BlkDescInner::cfg_init]; [as u32] keeps the low 32 bits. *)
Definition cfg_init (bsize : Z) (d : BlkDescInner) : BlkDescInner :=
  mkBlkDescInner bsize (BLOCKIF_SIZE_MAX mod U32_MOD) (BLOCKIF_IOV_MAX mod U32_MOD)
    (geometry d) (blk_size d) (topology d) (writeback d) (unused0 d)
    (max_discard_sectors d) (max_discard_seg d) (discard_sector_alignment d)
    (max_write_zeroes_sectors d) (max_write_zeroes_seg d)
    (write_zeroes_may_unmap d) (unused1 d).

Definition BlkGeometry_layout : list (string * ty) :=
  [("cylinders", u16); ("heads", u8); ("sectors", u8)].
Definition BlkTopology_layout : list (string * ty) :=
  [("physical_block_exp", u8); ("alignment_offset", u8); ("min_io_size", u16);
   ("opt_io_size", u32)].
Definition BlkDescInner_layout : list (string * ty) :=
  [("capacity", usize); ("size_max", u32); ("seg_max", u32);
   ("geometry", struct_ty BlkGeometry_layout); ("blk_size", usize);
   ("topology", struct_ty BlkTopology_layout); ("writeback", u8);
   ("unused0", array u8 3); ("max_discard_sectors", u32); ("max_discard_seg", u32);
   ("discard_sector_alignment", u32); ("max_write_zeroes_sectors", u32);
   ("max_write_zeroes_seg", u32); ("write_zeroes_may_unmap", u8);
   ("unused1", array u8 3)].

(** The scalars of a [BlkDescInner] value: (offset in the struct, size,
    value), each stored little-endian. *)
Definition leaves (d : BlkDescInner) : list (Z * Z * Z) :=
  let f n := offset_of BlkDescInner_layout n in
  let g := f "geometry" in
  let t := f "topology" in
  ([(f "capacity", 8, capacity d); (f "size_max", 4, size_max d);
   (f "seg_max", 4, seg_max d);
   (g + offset_of BlkGeometry_layout "cylinders", 2, cylinders (geometry d));
   (g + offset_of BlkGeometry_layout "heads", 1, heads (geometry d));
   (g + offset_of BlkGeometry_layout "sectors", 1, sectors (geometry d));
   (f "blk_size", 8, blk_size d);
   (t + offset_of BlkTopology_layout "physical_block_exp", 1,
      physical_block_exp (topology d));
   (t + offset_of BlkTopology_layout "alignment_offset", 1, alignment_offset (topology d));
   (t + offset_of BlkTopology_layout "min_io_size", 2, min_io_size (topology d));
   (t + offset_of BlkTopology_layout "opt_io_size", 4, opt_io_size (topology d));
   (f "writeback", 1, writeback d)] ++
  map (fun i => (f "unused0" + Z.of_nat i, 1, nth i (unused0 d) 0)) (seq 0 3) ++
  [(f "max_discard_sectors", 4, max_discard_sectors d);
   (f "max_discard_seg", 4, max_discard_seg d);
   (f "discard_sector_alignment", 4, discard_sector_alignment d);
   (f "max_write_zeroes_sectors", 4, max_write_zeroes_sectors d);
   (f "max_write_zeroes_seg", 4, max_write_zeroes_seg d);
   (f "write_zeroes_may_unmap", 1, write_zeroes_may_unmap d)] ++
  map (fun i => (f "unused1" + Z.of_nat i, 1, nth i (unused1 d) 0)) (seq 0 3))%list.

(** The byte at offset [k] of the struct; [None] for a padding byte. *)
Fixpoint byte_at (l : list (Z * Z * Z)) (k : Z) : option Z :=
  match l with
  | [] => None
  | (o, n, v) :: rest =>
      if (o <=? k) && (k <? o + n) then Some ((v / 256 ^ (k - o)) mod 256)
      else byte_at rest k
  end.

(** Host memory holding the struct at [base]: padding bytes, and every byte
    outside the struct, are whatever [rest] holds there. *)
Definition desc_mem (base : Z) (d : BlkDescInner) (rest : Z -> Z) : Z -> Z :=
  fun a =>
    if (base <=? a) && (a <? base + size_of BlkDescInner_layout) then
      match byte_at (leaves d) (a - base) with
      | Some b => b
      | None => rest a
      end
    else rest a.

(** [BlkDesc::start_addr]: the address of [inner.capacity], for the
    [BlkDescInner] stored at [base]. *)
Definition start_addr (base : Z) : Z := base + offset_of BlkDescInner_layout "capacity".

Definition illegal_addr_msg : string := "illegal addr".

(** [BlkDesc::offset_data]: a [u32] read at [start_addr + offset]. *)
Definition offset_data (ovf : bool) (base : Z) (d : BlkDescInner) (rest : Z -> Z)
    (offset : Z) : outcome Z :=
  a <- Blk.usize_add ovf (start_addr base) offset ;;
  if a <? 0x1000 then Panicked illegal_addr_msg
  else Done (Blk.load_le (desc_mem base d rest) a 4).

End BlkConfig.

(** ** src/device/virtio/dev.rs *)
Module Dev.
Import BlkConfig.

(** [VIRTIO_BLK_F_SIZE_MAX] and [VIRTIO_BLK_F_SEG_MAX] of blk.rs. *)
Definition VIRTIO_BLK_F_SIZE_MAX : Z := Z.shiftl 1 1.
Definition VIRTIO_BLK_F_SEG_MAX : Z := Z.shiftl 1 2.
(** Modelled from the spec: [VIRTIO_F_VERSION_1] (the mmio module, not under
    src/), the version-1 transport feature bit, bit 32 of the virtio feature
    word. *)
Definition VIRTIO_F_VERSION_1 : Z := Z.shiftl 1 32.

(** [VirtioDeviceType]; its [None] variant is [DevTypeNone] here. *)
Inductive VirtioDeviceType := DevTypeNone | Net | Block | Console.

(** [DevDesc]; the [BlkDesc] behind the [Arc<Mutex<_>>] is its
    [BlkDescInner]. *)
Inductive DevDesc := BlkDesc (inner : BlkDescInner) | DescNone.

Record VirtDevInner := mkVirtDevInner {
  activated : bool; dev_type : VirtioDeviceType; features : Z; generation : Z;
  desc : DevDesc }.

Definition VirtDevInner_default := mkVirtDevInner false DevTypeNone 0 0 DescNone.

Definition wrong_type_msg : string := "ERROR: Wrong virtio device type".

(** [VirtDevInner::init]. *)
Definition init (d : VirtDevInner) (dev_type0 : VirtioDeviceType) : outcome VirtDevInner :=
  let blk_desc := cfg_init 32 BlkDescInner_default in
  let d1 := mkVirtDevInner (activated d) dev_type0 (features d) (generation d)
              (BlkDesc blk_desc) in
  match dev_type d1 with
  | Block =>
      Done (mkVirtDevInner (activated d1) (dev_type d1)
              (Z.lor (features d1) (Z.lor (Z.lor VIRTIO_BLK_F_SIZE_MAX VIRTIO_BLK_F_SEG_MAX)
                                          VIRTIO_F_VERSION_1))
              (generation d1) (desc d1))
  | _ => Panicked wrong_type_msg
  end.

End Dev.

(** ** Terms in which the block request path's properties are stated *)
Module BlkSpec.
Import Blk.

(** The bytes an I/O vector describes. *)
Definition iov_sum (l : list BlkIov) : Z := fold_right (fun v acc => len v + acc) 0 l.

(** The chain heads published in the available ring that the device has not
    consumed yet, up to the producer index [a0]. *)
Definition pending (q : Virtq) (a0 : nat) : list Z :=
  map (fun i => nth i (avail_ring q) 0) (seq (last_avail_idx q) (a0 - last_avail_idx q)).

(** The parts of a queue the device only reads. *)
Definition queue_frame (q q' : Virtq) : Prop :=
  vq_ready q' = vq_ready q /\ desc_table q' = desc_table q /\
  avail_ring q' = avail_ring q /\ used_cap q' = used_cap q.

(** The state an outcome ends in ([d] when it does not end normally). *)
Definition final_state {A B} (o : outcome (A * B)) (d : B) : B :=
  match o with Done (_, x) => x | _ => d end.

End BlkSpec.

(** * Proofs *)

Section EmuProofs.
Import Emu EmuSpec.

Lemma usize_sub_1 ovf s : 1 <= s -> usize_sub ovf s 1 = Done (s - 1).
Proof. intros H. unfold usize_sub. destruct (Z.leb_spec 1 s); [reflexivity | lia]. Qed.

Lemma in_range_last a b s :
  1 <= s -> in_range a b (s - 1) = (b <=? a) && (a <? b + s).
Proof.
  intros H. unfold in_range.
  destruct (Z.leb_spec b a), (Z.leb_spec a (b + (s - 1))), (Z.ltb_spec a (b + s));
    simpl; try reflexivity; lia.
Qed.

Lemma emu_scan_first ovf a l :
  Forall (fun e => 1 <= size e) l -> emu_scan ovf a l = Done (first_containing a l).
Proof.
  induction 1 as [|e l He Hl IH]; [reflexivity|].
  simpl. rewrite usize_sub_1 by exact He. simpl.
  rewrite in_range_last by exact He.
  destruct ((ipa e <=? a) && (a <? ipa e + size e)); [reflexivity | exact IH].
Qed.

Lemma set_locked_unlocked {W} (m : Machine W) :
  emu_devs_locked m = false -> set_locked false (set_locked true m) = m.
Proof. destruct m; simpl; intros ->; reflexivity. Qed.


Definition overlap_b (e : EmuDevEntry) (a s0 : Z) : bool :=
  ((ipa e <=? a) && (a <? ipa e + size e)) || ((a <=? ipa e) && (ipa e <? a + s0)).

Lemma overlap_b_spec e a s0 :
  1 <= size e -> 1 <= s0 ->
  (overlap_b e a s0 = true <-> ranges_overlap (ipa e) (size e) a s0).
Proof.
  intros He Hs. unfold overlap_b, ranges_overlap. split.
  - intros Hb. apply orb_true_iff in Hb.
    destruct Hb as [Hb | Hb]; apply andb_true_iff in Hb; destruct Hb as [H1 H2];
      apply Z.leb_le in H1; apply Z.ltb_lt in H2.
    + exists a. lia.
    + exists (ipa e). lia.
  - intros [x Hx]. apply orb_true_iff.
    destruct (Z_le_gt_dec (ipa e) a).
    + left. apply andb_true_iff. split; [apply Z.leb_le | apply Z.ltb_lt]; lia.
    + right. apply andb_true_iff. split; [apply Z.leb_le | apply Z.ltb_lt]; lia.
Qed.

Lemma register_scan_cons ovf a s0 e l :
  1 <= size e -> 1 <= s0 ->
  register_scan ovf a s0 (e :: l) =
    if overlap_b e a s0 then Panicked dup_msg else register_scan ovf a s0 l.
Proof.
  intros He Hs. simpl. rewrite usize_sub_1 by exact He. simpl.
  rewrite in_range_last by exact He. unfold overlap_b.
  destruct ((ipa e <=? a) && (a <? ipa e + size e)); simpl; [reflexivity|].
  rewrite usize_sub_1 by exact Hs. simpl. rewrite in_range_last by exact Hs.
  reflexivity.
Qed.

Lemma register_scan_spec ovf a s0 l :
  1 <= s0 -> Forall (fun e => 1 <= size e) l ->
  (Forall (fun e => ~ ranges_overlap (ipa e) (size e) a s0) l ->
     register_scan ovf a s0 l = Done tt) /\
  (Exists (fun e => ranges_overlap (ipa e) (size e) a s0) l ->
     register_scan ovf a s0 l = Panicked dup_msg).
Proof.
  intros Hs. induction 1 as [|e l He Hl IH].
  - split; [reflexivity | intros H; inversion H].
  - rewrite register_scan_cons by assumption.
    pose proof (overlap_b_spec e a s0 He Hs) as Hiff.
    destruct (overlap_b e a s0).
    + split; [|reflexivity].
      intros Hf. inversion Hf; subst. exfalso. apply H1, Hiff; reflexivity.
    + destruct IH as [IH1 IH2]. split.
      * intros Hf. inversion Hf; subst. apply IH1; assumption.
      * intros Hx. inversion Hx; subst.
        -- apply Hiff in H0. discriminate.
        -- apply IH2; assumption.
Qed.

Lemma register_all_ok {W} ovf rs (m : Machine W) :
  emu_devs_locked m = false ->
  (List.length (emu_devs_list m) + List.length rs <= 32)%nat ->
  Forall (fun e => 1 <= size e) (emu_devs_list m) ->
  Forall (fun r => 1 <= r_size r) rs ->
  Forall (fun r => Forall (fun e => ~ ranges_overlap (ipa e) (size e) (r_base r) (r_size r))
                          (emu_devs_list m)) rs ->
  ForallOrdPairs (fun r1 r2 => ~ ranges_overlap (r_base r1) (r_size r1) (r_base r2) (r_size r2)) rs ->
  register_all ovf rs m =
    Done (tt, mkMachine (emu_devs_list m ++ map entry_of rs)%list false (ext m)).
Proof.
  revert m. induction rs as [|r rs IH]; intros m Hl Hn Hsz Hrs Hno Hp.
  - simpl. rewrite app_nil_r. destruct m; simpl in *; subst; reflexivity.
  - inversion Hrs as [|? ? Hr Hrs']; subst.
    inversion Hno as [|? ? Hr0 Hno']; subst.
    inversion Hp as [|? ? Hpr Hp']; subst.
    simpl. unfold emu_register_dev. rewrite Hl.
    simpl in Hn.
    destruct (Z.leb_spec EMU_DEV_NUM_MAX (Z.of_nat (List.length (emu_devs_list m))));
      [unfold EMU_DEV_NUM_MAX in *; lia|].
    destruct (register_scan_spec ovf (r_base r) (r_size r) (emu_devs_list m) Hr Hsz)
      as [Hok _].
    rewrite (Hok Hr0). simpl.
    rewrite IH; simpl.
    + rewrite <- app_assoc. reflexivity.
    + reflexivity.
    + rewrite length_app. simpl. lia.
    + apply Forall_app. split; [exact Hsz | constructor; [exact Hr | constructor]].
    + exact Hrs'.
    + rewrite Forall_forall in Hno', Hpr |- *. intros r' Hin.
      apply Forall_app. split; [apply Hno'; exact Hin|].
      constructor; [|constructor]. simpl. apply Hpr. exact Hin.
    + exact Hp'.
Qed.

(** C7 (amended): when every registered size is at least 1, [emu_handler]
    calls exactly the handler of the first entry, in table order, whose
    range [[ipa, ipa+size)] holds the address, with that entry's id, the
    context and the registry lock free, and returns what it returns; when no
    range holds the address it calls no handler and returns false. *)
Theorem emu_handler_dispatch {W}
    (hs : EmuDevHandler -> Z -> EmuContext -> Machine W -> outcome (bool * Machine W))
    ovf ctx (m : Machine W) :
  emu_devs_locked m = false ->
  Forall (fun e => 1 <= size e) (emu_devs_list m) ->
  emu_handler hs ovf ctx m =
    match first_containing (address ctx) (emu_devs_list m) with
    | Some e => hs (handler e) (id e) ctx m
    | None => Done (false, m)
    end.
Proof.
  intros Hl Hs. unfold emu_handler. rewrite Hl.
  replace (emu_devs_list (set_locked true m)) with (emu_devs_list m)
    by (destruct m; reflexivity).
  rewrite (emu_scan_first ovf (address ctx) _ Hs). simpl.
  rewrite set_locked_unlocked by exact Hl.
  destruct (first_containing (address ctx) (emu_devs_list m)); reflexivity.
Qed.

Lemma emu_handler_dispatch_witness :
  emu_handler (fun h i _ m => Done (h =? 3, m)) true (mkEmuContext 0x1008 4 false false 5 8)
    (mkMachine [mkEmuDevEntry EmuDeviceTVirtioNet 1 0x0 0x1000 2;
                mkEmuDevEntry EmuDeviceTVirtioBlk 2 0x1000 0x1000 3] false tt)
  = Done (true, mkMachine [mkEmuDevEntry EmuDeviceTVirtioNet 1 0x0 0x1000 2;
                mkEmuDevEntry EmuDeviceTVirtioBlk 2 0x1000 0x1000 3] false tt).
Proof.
  rewrite (emu_handler_dispatch (fun h i _ m => Done (h =? 3, m)) true
             (mkEmuContext 0x1008 4 false false 5 8)
             (mkMachine [mkEmuDevEntry EmuDeviceTVirtioNet 1 0x0 0x1000 2;
                         mkEmuDevEntry EmuDeviceTVirtioBlk 2 0x1000 0x1000 3] false tt)).
  - reflexivity.
  - reflexivity.
  - repeat constructor; simpl; lia.
Defined.

(** C7 counterexample: an entry of size 0 at 0x100 holds no address, yet a
    dispatch to 0x200 panics (overflow checks on) or calls its handler
    (overflow checks off) instead of returning false. *)
Lemma emu_handler_size0_entry :
  ~ (0x100 <= 0x200 < 0x100 + 0) /\
  emu_handler (fun _ _ _ m => Done (true, m)) true (mkEmuContext 0x200 4 false false 5 8)
    (mkMachine [mkEmuDevEntry EmuDeviceTVirtioBlk 7 0x100 0 3] false tt)
  = Panicked sub_overflow_msg /\
  emu_handler (fun _ _ _ m => Done (true, m)) false (mkEmuContext 0x200 4 false false 5 8)
    (mkMachine [mkEmuDevEntry EmuDeviceTVirtioBlk 7 0x100 0 3] false tt)
  = Done (true, mkMachine [mkEmuDevEntry EmuDeviceTVirtioBlk 7 0x100 0 3] false tt).
Proof. split; [lia | split; vm_compute; reflexivity]. Qed.

(** C6 (amended): when the new size and every registered size are at least
    1, [emu_register_dev] appends the entry if the table holds fewer than 32
    entries and [[base, base+size)] meets no registered range, and panics if
    the table is full or the new range meets a registered one (in either
    direction); from an empty table, 32 pairwise disjoint registrations of
    sizes at least 1 succeed and any 33rd one panics. *)
Theorem emu_register_dev_spec {W} ovf t did a s0 h (m : Machine W) :
  emu_devs_locked m = false -> 1 <= s0 -> Forall (fun e => 1 <= size e) (emu_devs_list m) ->
  ((List.length (emu_devs_list m) < 32)%nat ->
     Forall (fun e => ~ ranges_overlap (ipa e) (size e) a s0) (emu_devs_list m) ->
     emu_register_dev ovf t did a s0 h m =
       Done (tt, mkMachine (emu_devs_list m ++ [mkEmuDevEntry t did a s0 h])%list
                           false (ext m))) /\
  ((32 <= List.length (emu_devs_list m))%nat ->
     emu_register_dev ovf t did a s0 h m = Panicked full_msg) /\
  ((List.length (emu_devs_list m) < 32)%nat ->
     Exists (fun e => ranges_overlap (ipa e) (size e) a s0) (emu_devs_list m) ->
     emu_register_dev ovf t did a s0 h m = Panicked dup_msg) /\
  (forall (w : W) rs, List.length rs = 32%nat ->
     Forall (fun r => 1 <= r_size r) rs ->
     ForallOrdPairs (fun r1 r2 => ~ ranges_overlap (r_base r1) (r_size r1)
                                                    (r_base r2) (r_size r2)) rs ->
     register_all ovf rs (mkMachine [] false w) =
       Done (tt, mkMachine (map entry_of rs) false w) /\
     forall t' did' a' s' h',
       emu_register_dev ovf t' did' a' s' h' (mkMachine (map entry_of rs) false w) =
         Panicked full_msg).
Proof.
  intros Hl Hs Hsz.
  destruct (register_scan_spec ovf a s0 _ Hs Hsz) as [Hok Hdup].
  unfold emu_register_dev at 1 2 3. rewrite Hl. unfold EMU_DEV_NUM_MAX.
  split; [|split; [|split]].
  - intros Hn Hno. destruct (Z.leb_spec 32 (Z.of_nat (List.length (emu_devs_list m))));
      [lia|]. rewrite (Hok Hno). reflexivity.
  - intros Hn. destruct (Z.leb_spec 32 (Z.of_nat (List.length (emu_devs_list m))));
      [reflexivity | lia].
  - intros Hn Hx. destruct (Z.leb_spec 32 (Z.of_nat (List.length (emu_devs_list m))));
      [lia|]. rewrite (Hdup Hx). reflexivity.
  - intros w rs Hlen Hrs Hp. split.
    + rewrite (register_all_ok ovf rs (mkMachine [] false w)); simpl.
      * reflexivity.
      * reflexivity.
      * lia.
      * constructor.
      * exact Hrs.
      * rewrite Forall_forall. intros. constructor.
      * exact Hp.
    + intros. unfold emu_register_dev. simpl. rewrite length_map, Hlen. reflexivity.
Qed.

Lemma emu_register_dev_spec_witness :
  emu_register_dev true EmuDeviceTVirtioBlk 2 0x1000 0x1000 3
    (mkMachine [mkEmuDevEntry EmuDeviceTVirtioNet 1 0 0x1000 2] false tt)
  = Done (tt, mkMachine [mkEmuDevEntry EmuDeviceTVirtioNet 1 0 0x1000 2;
                         mkEmuDevEntry EmuDeviceTVirtioBlk 2 0x1000 0x1000 3] false tt).
Proof.
  destruct (emu_register_dev_spec true EmuDeviceTVirtioBlk 2 0x1000 0x1000 3
              (mkMachine [mkEmuDevEntry EmuDeviceTVirtioNet 1 0 0x1000 2] false tt))
    as [H _].
  - reflexivity.
  - lia.
  - repeat constructor; simpl; lia.
  - apply H.
    + simpl. lia.
    + repeat constructor. unfold ranges_overlap; simpl. intros [x Hx]. lia.
Defined.

(** C6 counterexample: the range [[0x5, 0x5)] of size 0 meets no registered
    range, yet registering it next to [[0, 0x10)] panics as a duplicate. *)
Lemma emu_register_dev_empty_range :
  ~ ranges_overlap 0 0x10 0x5 0 /\
  emu_register_dev true EmuDeviceTVirtioBlk 2 0x5 0 3
    (mkMachine [mkEmuDevEntry EmuDeviceTVirtioNet 1 0 0x10 2] false tt)
  = Panicked dup_msg /\
  emu_register_dev false EmuDeviceTVirtioBlk 2 0x5 0 3
    (mkMachine [mkEmuDevEntry EmuDeviceTVirtioNet 1 0 0x10 2] false tt)
  = Panicked dup_msg.
Proof.
  unfold ranges_overlap. split; [intros [x Hx]; lia | split; vm_compute; reflexivity].
Qed.

Lemma cons_eq_app_cons {A} (e : A) l pre e' post :
  e :: l = (pre ++ e' :: post)%list ->
  (pre = [] /\ e = e' /\ l = post) \/
  (exists pre', pre = e :: pre' /\ l = (pre' ++ e' :: post)%list).
Proof.
  destruct pre as [|x pre']; simpl; intros H; inversion H; subst.
  - left. auto.
  - right. exists pre'. auto.
Qed.

Lemma contains_b_spec b a n :
  (b <=? a) && (a <? b + n) = true <-> b <= a < b + n.
Proof.
  rewrite andb_true_iff, Z.leb_le, Z.ltb_lt. tauto.
Qed.

Lemma emu_scan_underflow_iff a l :
  Forall (fun e => 0 <= size e) l ->
  (emu_scan true a l = Panicked sub_overflow_msg <-> reaches_zero_handler a l).
Proof.
  unfold reaches_zero_handler.
  induction 1 as [|e l He Hl IH].
  - split; [discriminate|]. intros (pre & e & post & Heq & _).
    destruct pre; discriminate.
  - simpl. destruct (Z.eq_dec (size e) 0) as [H0|H0].
    + unfold usize_sub. rewrite H0. simpl. split; [|reflexivity].
      intros _. exists [], e, l. auto.
    + rewrite usize_sub_1 by lia. simpl. rewrite in_range_last by lia.
      destruct ((ipa e <=? a) && (a <? ipa e + size e)) eqn:Hc.
      * apply contains_b_spec in Hc.
        split; [discriminate|]. intros (pre & e' & post & Heq & Hf & Hz).
        apply cons_eq_app_cons in Heq.
        destruct Heq as [(-> & <- & ->) | (pre' & -> & ->)]; [lia|].
        inversion Hf; subst. tauto.
      * assert (Hn : ~ (ipa e <= a < ipa e + size e))
          by (rewrite <- contains_b_spec, Hc; discriminate).
        rewrite IH. split.
        -- intros (pre & e' & post & Heq & Hf & Hz).
           exists (e :: pre), e', post. simpl. rewrite Heq.
           split; [reflexivity | split; [constructor; [split; [lia | exact Hn] | exact Hf] | exact Hz]].
        -- intros (pre & e' & post & Heq & Hf & Hz).
           apply cons_eq_app_cons in Heq.
           destruct Heq as [(-> & <- & ->) | (pre' & -> & ->)]; [lia|].
           inversion Hf; subst. exists pre', e', post. auto.
Qed.

Lemma register_scan_underflow_iff a s0 l :
  0 <= s0 -> Forall (fun e => 0 <= size e) l ->
  (register_scan true a s0 l = Panicked sub_overflow_msg <-> reaches_zero_register a s0 l).
Proof.
  intros Hs0. unfold reaches_zero_register.
  induction 1 as [|e l He Hl IH].
  - split; [discriminate|]. intros (pre & e & post & Heq & _).
    destruct pre; discriminate.
  - assert (Hno : forall P : Prop, ~ P ->
              (Panicked dup_msg = @Panicked unit sub_overflow_msg <-> P)).
    { intros P HP. split; [intros Hd; inversion Hd | intros; contradiction]. }
    simpl. destruct (Z.eq_dec (size e) 0) as [H0|H0].
    + unfold usize_sub at 1. rewrite H0. simpl. split; [|reflexivity].
      intros _. exists [], e, l. auto.
    + rewrite usize_sub_1 by lia. simpl. rewrite in_range_last by lia.
      destruct (Z.leb_spec (ipa e) a), (Z.ltb_spec a (ipa e + size e)); simpl;
        [apply Hno; intros (pre & e' & post & Heq & Hf & Hz);
         apply cons_eq_app_cons in Heq;
         destruct Heq as [(-> & <- & ->) | (pre' & -> & ->)];
         [lia | inversion Hf; subst; lia] | | |].
      all: destruct (Z.eq_dec s0 0) as [Hz0|Hz0];
        [ unfold usize_sub; rewrite Hz0; simpl; split; [|reflexivity];
          intros _; exists [], e, l; split; [reflexivity | split; [constructor | lia]] |].
      all: rewrite usize_sub_1 by lia; simpl; rewrite in_range_last by lia.
      all: destruct (Z.leb_spec a (ipa e)), (Z.ltb_spec (ipa e) (a + s0)); simpl.
      all: try (apply Hno; intros (pre & e' & post & Heq & Hf & Hz);
                apply cons_eq_app_cons in Heq;
                destruct Heq as [(-> & <- & ->) | (pre' & -> & ->)];
                [lia | inversion Hf; subst; lia]).
      all: rewrite IH; split.
      all: try (intros (pre & e' & post & Heq & Hf & Hz);
                exists (e :: pre), e', post; simpl; rewrite Heq;
                split; [reflexivity | split; [constructor; [lia | exact Hf] | exact Hz]]).
      all: intros (pre & e' & post & Heq & Hf & Hz);
           apply cons_eq_app_cons in Heq;
           destruct Heq as [(-> & <- & ->) | (pre' & -> & ->)]; [lia|];
           inversion Hf; subst; exists pre', e', post; auto.
Qed.

(** C10 (amended): with overflow checks on, a [size - 1] on 0 is evaluated,
    and panics, exactly when the scan reaches it: [emu_handler] underflows
    exactly when its scan meets a size-0 entry before an entry holding the
    address; [emu_register_dev] on a table that is not full underflows
    exactly when its scan meets a size-0 entry, or an entry not holding the
    new base while the new size is 0, before it finds an overlap.  A size-0
    value the scan does not reach (for instance a size-0 registration on an
    empty table) causes no underflow. *)
Theorem emu_size_underflow_exact {W}
    (hs : EmuDevHandler -> Z -> EmuContext -> Machine W -> outcome (bool * Machine W))
    ctx (m : Machine W) t did a s0 h :
  emu_devs_locked m = false -> 0 <= s0 ->
  Forall (fun e => 0 <= size e) (emu_devs_list m) ->
  (emu_scan true (address ctx) (emu_devs_list m) = Panicked sub_overflow_msg <->
     reaches_zero_handler (address ctx) (emu_devs_list m)) /\
  (reaches_zero_handler (address ctx) (emu_devs_list m) ->
     emu_handler hs true ctx m = Panicked sub_overflow_msg) /\
  ((List.length (emu_devs_list m) < 32)%nat ->
     (emu_register_dev true t did a s0 h m = Panicked sub_overflow_msg <->
      reaches_zero_register a s0 (emu_devs_list m))).
Proof.
  intros Hl Hs0 Hsz.
  pose proof (emu_scan_underflow_iff (address ctx) _ Hsz) as Hh.
  pose proof (register_scan_underflow_iff a s0 _ Hs0 Hsz) as Hr.
  split; [exact Hh | split].
  - intros Hz. apply Hh in Hz. unfold emu_handler. rewrite Hl.
    replace (emu_devs_list (set_locked true m)) with (emu_devs_list m)
      by (destruct m; reflexivity).
    rewrite Hz. reflexivity.
  - intros Hn. rewrite <- Hr. unfold emu_register_dev. rewrite Hl.
    unfold EMU_DEV_NUM_MAX.
    destruct (Z.leb_spec 32 (Z.of_nat (List.length (emu_devs_list m)))); [lia|].
    destruct (register_scan true a s0 (emu_devs_list m)) as [[]| msg |]; simpl.
    + split; discriminate.
    + split; intros Hm; inversion Hm; reflexivity.
    + split; discriminate.
Qed.

Lemma emu_size_underflow_exact_witness :
  emu_register_dev true EmuDeviceTVirtioBlk 2 0x5000 0 3
    (mkMachine [mkEmuDevEntry EmuDeviceTVirtioNet 1 0 0x10 2] false tt)
  = Panicked sub_overflow_msg.
Proof.
  destruct (emu_size_underflow_exact (fun _ _ _ m => Done (false, m))
              (mkEmuContext 0 4 false false 5 8)
              (mkMachine [mkEmuDevEntry EmuDeviceTVirtioNet 1 0 0x10 2] false tt)
              EmuDeviceTVirtioBlk 2 0x5000 0 3) as [_ [_ H]].
  - reflexivity.
  - lia.
  - repeat constructor; simpl; lia.
  - apply H.
    + simpl. lia.
    + exists [], (mkEmuDevEntry EmuDeviceTVirtioNet 1 0 0x10 2), [].
      split; [reflexivity | split; [constructor | simpl; right; lia]].
Defined.

(** C10 counterexample: registering a size-0 range on an empty table
    evaluates no [size - 1]: with overflow checks on it does not panic, it
    appends the entry. *)
Lemma emu_register_dev_size0_empty :
  emu_register_dev true EmuDeviceTVirtioBlk 2 0x1000 0 3 (mkMachine [] false tt)
  = Done (tt, mkMachine [mkEmuDevEntry EmuDeviceTVirtioBlk 2 0x1000 0 3] false tt).
Proof. reflexivity. Qed.

End EmuProofs.

Section VcpuProofs.
Import Vcpu.

(** C9 (amended): [VCpu::create] starts from the all-zero layout; the guest
    hstatus becomes the hart's current hstatus with SPV set and the guest
    sstatus the hart's current sstatus with SPP = Supervisor; every guest
    general-purpose register and every other field of the layout is zero. *)
Theorem create_guest_state {Guest} hstatus_now sstatus_now e sp hg ksp th (g : Guest) :
  let r := regs (create hstatus_now sstatus_now e sp hg ksp th g) in
  g_gprs (guest_regs r) = repeat 0 32 /\
  g_hstatus (guest_regs r) = Z.setbit hstatus_now HSTATUS_SPV_BIT /\
  Z.testbit (g_hstatus (guest_regs r)) HSTATUS_SPV_BIT = true /\
  g_sstatus (guest_regs r) = Z.setbit sstatus_now SSTATUS_SPP_BIT /\
  Z.testbit (g_sstatus (guest_regs r)) SSTATUS_SPP_BIT = true /\
  g_scounteren (guest_regs r) = 0 /\ g_sepc (guest_regs r) = 0 /\
  hyp_regs r = HypervisorCpuState_default /\ vs_csrs r = GuestVsCsrs_default /\
  virtual_hs_csrs r = GuestVirtualHsCsrs_default /\ trap_csrs r = VmCpuTrapState_default /\
  guest (create hstatus_now sstatus_now e sp hg ksp th g) = g.
Proof.
  unfold create, set_spv, set_spp.
  cbn -[Z.setbit Z.testbit HSTATUS_SPV_BIT SSTATUS_SPP_BIT].
  repeat split; try reflexivity; apply Z.setbit_eq; unfold HSTATUS_SPV_BIT, SSTATUS_SPP_BIT; lia.
Qed.

(** C9 counterexample: on a hart whose hstatus reads [2^33] (VSXL = 2, the
    64-bit guest encoding), the guest hstatus is not just the SPV bit. *)
Lemma create_keeps_hart_hstatus :
  g_hstatus (guest_regs (regs (create (2 ^ 33) 0 0 0 0 0 0 tt))) = 2 ^ 33 + 2 ^ 7 /\
  g_hstatus (guest_regs (regs (create (2 ^ 33) 0 0 0 0 0 0 tt))) <> Z.setbit 0 HSTATUS_SPV_BIT.
Proof. split; vm_compute; [reflexivity | discriminate]. Qed.

End VcpuProofs.

Section BlkProofs.
Import Blk.

(** C8: on a queue whose [ready()] is 0 the notify handler returns false and
    leaves the machine as it was: no available-ring entry popped, no status
    byte or buffer written, no backing-store access, no completion posted. *)
Theorem notify_not_ready ovf id_bytes vm_ipa2pa m :
  vq_ready (vq m) = 0 ->
  virtio_blk_notify_handler ovf id_bytes vm_ipa2pa m = Done (false, m).
Proof.
  intros H. unfold virtio_blk_notify_handler. rewrite H. reflexivity.
Qed.

Lemma notify_not_ready_witness :
  vq_ready (mkVirtq 0 [mkVirtqDesc 0x100 16 1 1; mkVirtqDesc 0x200 1 2 0] [0] 0 [] 8 true) = 0 /\
  virtio_blk_notify_handler true (fun _ => 0) (fun a => a)
    (mkBlkMachine (mkVirtq 0 [mkVirtqDesc 0x100 16 1 1; mkVirtqDesc 0x200 1 2 0] [0] 0 [] 8 true)
                  (fun _ => 0) (fun _ => 0))
  = Done (false, mkBlkMachine (mkVirtq 0 [mkVirtqDesc 0x100 16 1 1; mkVirtqDesc 0x200 1 2 0]
                                  [0] 0 [] 8 true) (fun _ => 0) (fun _ => 0)).
Proof.
  split; [reflexivity|].
  apply notify_not_ready. reflexivity.
Defined.

Lemma land_2 f : Z.land f VIRTQ_DESC_F_WRITE = if Z.testbit f 1 then 2 else 0.
Proof.
  apply Z.bits_inj'. intros n Hn. rewrite Z.land_spec.
  unfold VIRTQ_DESC_F_WRITE. change 2 with (2 ^ 1).
  rewrite Z.pow2_bits_eqb by lia.
  destruct (Z.testbit f 1) eqn:E.
  - rewrite Z.pow2_bits_eqb by lia.
    destruct (Z.eqb_spec 1 n); [subst; rewrite E; reflexivity | apply andb_false_r].
  - rewrite Z.bits_0. destruct (Z.eqb_spec 1 n); [subst; rewrite E; reflexivity|].
    apply andb_false_r.
Qed.

Lemma desc_is_writable_bit q idx :
  desc_is_writable q idx = Z.testbit (desc_flags q idx) 1.
Proof.
  unfold desc_is_writable. rewrite land_2.
  destruct (Z.testbit (desc_flags q idx) 1); reflexivity.
Qed.

Lemma direction_bit q idx :
  Z.shiftr (Z.land (desc_flags q idx) VIRTQ_DESC_F_WRITE) 1 =
    if desc_is_writable q idx then 1 else 0.
Proof.
  rewrite desc_is_writable_bit, land_2.
  destruct (Z.testbit (desc_flags q idx) 1); reflexivity.
Qed.

(** C5: at an interior descriptor (one with a successor, after the head) of
    a read (IN, 0) or write (OUT, 1) request, the chain walk aborts the
    notification (the handler's [return false]) when the descriptor's
    device-writable flag differs from "the request is a read"; when it
    matches, the descriptor is accepted by the direction check and, unless
    its address translates to 0 (then the walk aborts as for any failed
    translation), contributes exactly the entry {translated address, length}
    to the request's I/O vector before the walk goes on to the next
    descriptor. *)
Theorem walk_chain_direction ovf vm_ipa2pa fuel m idx node :
  desc_has_next (vq m) idx = true ->
  req_type node = VIRTIO_BLK_T_IN \/ req_type node = VIRTIO_BLK_T_OUT ->
  (desc_is_writable (vq m) idx <> (req_type node =? VIRTIO_BLK_T_IN) ->
     walk_chain ovf vm_ipa2pa (S fuel) m idx false node = Done (None, m)) /\
  (desc_is_writable (vq m) idx = (req_type node =? VIRTIO_BLK_T_IN) ->
     (vm_ipa2pa (desc_addr (vq m) idx) = 0 ->
        walk_chain ovf vm_ipa2pa (S fuel) m idx false node = Done (None, m)) /\
     (vm_ipa2pa (desc_addr (vq m) idx) <> 0 ->
        walk_chain ovf vm_ipa2pa (S fuel) m idx false node =
          (sum <- usize_add ovf (iov_sum_up node) (desc_len (vq m) idx) ;;
           walk_chain ovf vm_ipa2pa fuel m (desc_next (vq m) idx) false
             (push_iov node (mkBlkIov (vm_ipa2pa (desc_addr (vq m) idx))
                                      (desc_len (vq m) idx)) sum)))).
Proof.
  intros Hn Ht. cbn [walk_chain]. rewrite Hn, direction_bit.
  unfold VIRTIO_BLK_T_IN, VIRTIO_BLK_T_OUT in *.
  split.
  - intros Hw.
    destruct (desc_is_writable (vq m) idx), Ht as [Ht | Ht]; rewrite Ht in *;
      simpl in *; try reflexivity; congruence.
  - intros Hw.
    assert (Hc : ((if desc_is_writable (vq m) idx then 1 else 0) =? req_type node) = false)
      by (destruct (desc_is_writable (vq m) idx), Ht as [Ht | Ht]; rewrite Ht in *;
          simpl in *; congruence).
    rewrite Hc. split.
    + intros Hz. rewrite Hz. reflexivity.
    + intros Hz. apply Z.eqb_neq in Hz. rewrite Hz. reflexivity.
Qed.

Lemma walk_chain_direction_witness :
  desc_has_next Scenarios.round_trip_queue 1 = true /\
  walk_chain true Scenarios.identity_ipa2pa 1 (Scenarios.round_trip_machine 31) 1 false
    (mkVirtioBlkReqNode VIRTIO_BLK_T_IN 0 31 0 [] 0 0)
  = Done (None, Scenarios.round_trip_machine 31).
Proof.
  split; [reflexivity|].
  apply (proj1 (walk_chain_direction true Scenarios.identity_ipa2pa 0
                  (Scenarios.round_trip_machine 31) 1
                  (mkVirtioBlkReqNode VIRTIO_BLK_T_IN 0 31 0 [] 0 0)
                  eq_refl (or_introl eq_refl))).
  vm_compute. discriminate.
Defined.

(** A head descriptor that has a successor and is device-writable stops the
    walk with the handler's [return false], before anything is written. *)
Lemma walk_chain_writable_head ovf vm_ipa2pa fuel m idx node :
  desc_has_next (vq m) idx = true -> desc_is_writable (vq m) idx = true ->
  walk_chain ovf vm_ipa2pa (S fuel) m idx true node = Done (None, m).
Proof. intros Hn Hw. simpl. rewrite Hn, Hw. reflexivity. Qed.

(** C1 (code bug): on the 32-sector device, an OUT of 512 bytes of 0xAB to
    the last sector (31 * 512 + 512 = 32 * 512, within capacity) followed by
    an IN of 512 bytes from it leaves the IN buffer at 0 although the
    completion reports 512 bytes; one sector lower the same pair of
    requests returns the written bytes. *)
Theorem round_trip_last_sector :
  31 * 512 + 512 <= 32 * SECTOR_BSIZE /\
  Scenarios.round_trip_mem 31 0x1000 = 0xAB /\
  match virtio_blk_notify_handler true Scenarios.zero_mem Scenarios.identity_ipa2pa
          (Scenarios.round_trip_machine 31) with
  | Done (ok, m') => ok = true /\ used_ring (vq m') = [(0, 0); (512, 3)] /\
                     mem m' 0x2000 = 0 /\ mem m' 0x21FF = 0
  | _ => False
  end /\
  match virtio_blk_notify_handler true Scenarios.zero_mem Scenarios.identity_ipa2pa
          (Scenarios.round_trip_machine 30) with
  | Done (ok, m') => ok = true /\ used_ring (vq m') = [(0, 0); (512, 3)] /\
                     mem m' 0x2000 = 0xAB /\ mem m' 0x21FF = 0xAB
  | _ => False
  end.
Proof.
  split; [unfold SECTOR_BSIZE; lia|]. split; [reflexivity|].
  split; vm_compute; repeat split; reflexivity.
Qed.

(** C2 (code bug): an access ending exactly at the device's capacity
    (offset 15872, count 512, 15872 + 512 = 16384 = SECTOR_BSIZE *
    SECTORS_NUM) fails without copying, both for [blk_read] and for
    [blk_write]; one byte lower it succeeds. *)
Theorem blk_rw_at_capacity :
  15872 + 512 <= SECTOR_BSIZE * SECTORS_NUM /\
  blk_write true 15872 512 0x1000 (Scenarios.round_trip_machine 31)
    = Done (false, Scenarios.round_trip_machine 31) /\
  blk_read true 15872 512 0x2000 (Scenarios.round_trip_machine 31)
    = Done (false, Scenarios.round_trip_machine 31) /\
  match blk_write true 15871 512 0x1000 (Scenarios.round_trip_machine 31) with
  | Done (ok, _) => ok = true
  | _ => False
  end /\
  match blk_read true 15871 512 0x2000 (Scenarios.round_trip_machine 31) with
  | Done (ok, _) => ok = true
  | _ => False
  end.
Proof.
  split; [unfold SECTOR_BSIZE, SECTORS_NUM; lia|].
  repeat split; vm_compute; reflexivity.
Qed.

(** C3 (code bug): a well-formed chain whose header holds request type 2
    gets the status byte "unsupported" during parsing, but the execution
    phase then panics, whatever the overflow-check setting, instead of
    posting a completion and answering with a boolean. *)
Theorem unsupported_type_panics :
  virtio_blk_notify_handler true Scenarios.zero_mem Scenarios.identity_ipa2pa
    Scenarios.type2_machine = Panicked unexpected_type_msg /\
  virtio_blk_notify_handler false Scenarios.zero_mem Scenarios.identity_ipa2pa
    Scenarios.type2_machine = Panicked unexpected_type_msg.
Proof. split; vm_compute; reflexivity. Qed.

(** C4 (code bug): a chain made of one device-writable descriptor, which is
    therefore its own head, is not rejected: the handler writes the status
    byte there, returns true and posts a completion for it. *)
Theorem single_writable_head_accepted :
  desc_is_writable Scenarios.single_writable_queue 0 = true /\
  match virtio_blk_notify_handler true Scenarios.zero_mem Scenarios.identity_ipa2pa
          Scenarios.single_writable_machine with
  | Done (ok, m') => ok = true /\ used_ring (vq m') = [(0, 0)]
  | _ => False
  end.
Proof. split; vm_compute; [reflexivity | split; reflexivity]. Qed.

End BlkProofs.

(** * Further properties of the registry, the vCPU layout, the device
    configuration and the block request path *)

Section EmuMoreProofs.
Import Emu EmuSpec.

Lemma register_scan_done ovf a s0 l :
  1 <= s0 -> Forall (fun e => 1 <= size e) l ->
  register_scan ovf a s0 l = Done tt ->
  Forall (fun e => ~ ranges_overlap (ipa e) (size e) a s0) l.
Proof.
  intros Hs. induction 1 as [|e l He Hl IH]; intros Hr; constructor.
  - rewrite register_scan_cons in Hr by assumption.
    intros Ho. apply (overlap_b_spec e a s0 He Hs) in Ho. rewrite Ho in Hr. discriminate.
  - rewrite register_scan_cons in Hr by assumption.
    destruct (overlap_b e a s0); [discriminate | exact (IH Hr)].
Qed.

Lemma register_dev_done {W} ovf t did a s0 h (m m' : Machine W) :
  1 <= s0 -> Forall (fun e => 1 <= size e) (emu_devs_list m) ->
  emu_register_dev ovf t did a s0 h m = Done (tt, m') ->
  emu_devs_list m' = (emu_devs_list m ++ [mkEmuDevEntry t did a s0 h])%list /\
  emu_devs_locked m' = false /\ ext m' = ext m /\
  (List.length (emu_devs_list m) < 32)%nat /\
  Forall (fun e => ~ ranges_overlap (ipa e) (size e) a s0) (emu_devs_list m).
Proof.
  intros Hs Hsz H. unfold emu_register_dev in H.
  destruct (emu_devs_locked m); [discriminate|].
  unfold EMU_DEV_NUM_MAX in H.
  destruct (Z.leb_spec 32 (Z.of_nat (List.length (emu_devs_list m)))); [discriminate|].
  destruct (register_scan ovf a s0 (emu_devs_list m)) as [[]| |] eqn:Hr; simpl in H;
    try discriminate.
  inversion H; subst; simpl.
  repeat split; try reflexivity; [lia|].
  exact (register_scan_done ovf a s0 _ Hs Hsz Hr).
Qed.

Lemma ForallOrdPairs_snoc {A} (R : A -> A -> Prop) l x :
  ForallOrdPairs R l -> Forall (fun y => R y x) l -> ForallOrdPairs R (l ++ [x])%list.
Proof.
  induction 1 as [|a l Ha Hl IH]; intros Hx; simpl.
  - constructor; [constructor | constructor].
  - inversion Hx; subst. constructor.
    + apply Forall_app. split; [exact Ha | constructor; [assumption | constructor]].
    + apply IH. assumption.
Qed.

(** [emu_register_dev] keeps the registry well formed: started from a table
    of pairwise disjoint ranges of sizes at least 1, a successful
    registration of a size at least 1 leaves a table that is still pairwise
    disjoint, holds at most 32 entries, has the new entry last and the lock
    free. *)
Theorem emu_register_dev_keeps_disjoint {W} ovf t did a s0 h (m m' : Machine W) :
  1 <= s0 -> Forall (fun e => 1 <= size e) (emu_devs_list m) ->
  ForallOrdPairs (fun e1 e2 => ~ ranges_overlap (ipa e1) (size e1) (ipa e2) (size e2))
    (emu_devs_list m) ->
  emu_register_dev ovf t did a s0 h m = Done (tt, m') ->
  emu_devs_list m' = (emu_devs_list m ++ [mkEmuDevEntry t did a s0 h])%list /\
  emu_devs_locked m' = false /\
  (List.length (emu_devs_list m') <= 32)%nat /\
  Forall (fun e => 1 <= size e) (emu_devs_list m') /\
  ForallOrdPairs (fun e1 e2 => ~ ranges_overlap (ipa e1) (size e1) (ipa e2) (size e2))
    (emu_devs_list m').
Proof.
  intros Hs Hsz Hd H.
  destruct (register_dev_done ovf t did a s0 h m m' Hs Hsz H) as (Hl & Hk & _ & Hn & Ho).
  rewrite Hl. repeat split.
  - exact Hk.
  - rewrite length_app. simpl. lia.
  - apply Forall_app. split; [exact Hsz | constructor; [exact Hs | constructor]].
  - apply ForallOrdPairs_snoc; [exact Hd | exact Ho].
Qed.

Lemma emu_register_dev_keeps_disjoint_witness :
  emu_devs_list (mkMachine [mkEmuDevEntry EmuDeviceTVirtioNet 1 0 0x1000 2;
                            mkEmuDevEntry EmuDeviceTVirtioBlk 2 0x1000 0x1000 3] false tt)
  = ([mkEmuDevEntry EmuDeviceTVirtioNet 1 0 0x1000 2] ++
     [mkEmuDevEntry EmuDeviceTVirtioBlk 2 0x1000 0x1000 3])%list /\
  emu_devs_locked (mkMachine [mkEmuDevEntry EmuDeviceTVirtioNet 1 0 0x1000 2;
                              mkEmuDevEntry EmuDeviceTVirtioBlk 2 0x1000 0x1000 3] false tt)
  = false /\
  Nat.le (List.length [mkEmuDevEntry EmuDeviceTVirtioNet 1 0 0x1000 2;
                       mkEmuDevEntry EmuDeviceTVirtioBlk 2 0x1000 0x1000 3]) 32 /\
  Forall (fun e => 1 <= size e) [mkEmuDevEntry EmuDeviceTVirtioNet 1 0 0x1000 2;
                                 mkEmuDevEntry EmuDeviceTVirtioBlk 2 0x1000 0x1000 3] /\
  ForallOrdPairs (fun e1 e2 => ~ ranges_overlap (ipa e1) (size e1) (ipa e2) (size e2))
    [mkEmuDevEntry EmuDeviceTVirtioNet 1 0 0x1000 2;
     mkEmuDevEntry EmuDeviceTVirtioBlk 2 0x1000 0x1000 3].
Proof.
  apply (emu_register_dev_keeps_disjoint true EmuDeviceTVirtioBlk 2 0x1000 0x1000 3
           (mkMachine [mkEmuDevEntry EmuDeviceTVirtioNet 1 0 0x1000 2] false tt)).
  - lia.
  - repeat constructor; simpl; lia.
  - repeat constructor.
  - reflexivity.
Defined.

Lemma first_containing_app a l l' :
  first_containing a (l ++ l')%list =
    match first_containing a l with Some e => Some e | None => first_containing a l' end.
Proof.
  induction l as [|e l IH]; simpl; [reflexivity|].
  destruct ((ipa e <=? a) && (a <? ipa e + size e)); [reflexivity | exact IH].
Qed.

Lemma first_containing_none a l :
  Forall (fun e => ~ (ipa e <= a < ipa e + size e)) l -> first_containing a l = None.
Proof.
  induction 1 as [|e l He Hl IH]; simpl; [reflexivity|].
  destruct ((ipa e <=? a) && (a <? ipa e + size e)) eqn:Hc; [|exact IH].
  apply contains_b_spec in Hc. contradiction.
Qed.

(** Registration then dispatch: once [emu_register_dev] has accepted
    [[a, a+s0)] with handler [h] and id [did] (all sizes at least 1), an
    access at any address of that range is dispatched by [emu_handler] to
    [h] with [did], the context and the registry as registration left it. *)
Theorem register_then_dispatch {W}
    (hs : EmuDevHandler -> Z -> EmuContext -> Machine W -> outcome (bool * Machine W))
    ovf t did a s0 h (m m' : Machine W) ctx :
  1 <= s0 -> Forall (fun e => 1 <= size e) (emu_devs_list m) ->
  emu_register_dev ovf t did a s0 h m = Done (tt, m') ->
  a <= address ctx < a + s0 ->
  emu_handler hs ovf ctx m' = hs h did ctx m'.
Proof.
  intros Hs Hsz H Ha.
  destruct (register_dev_done ovf t did a s0 h m m' Hs Hsz H) as (Hl & Hk & _ & _ & Ho).
  unfold emu_handler. rewrite Hk.
  replace (emu_devs_list (set_locked true m')) with (emu_devs_list m')
    by (destruct m'; reflexivity).
  rewrite emu_scan_first.
  - simpl. rewrite Hl, first_containing_app, first_containing_none.
    + simpl. destruct (Z.leb_spec a (address ctx)), (Z.ltb_spec (address ctx) (a + s0));
        try lia. simpl. rewrite set_locked_unlocked by exact Hk. reflexivity.
    + rewrite Forall_forall in Ho |- *. intros e Hin Hc. apply (Ho e Hin).
      exists (address ctx). lia.
  - rewrite Hl. apply Forall_app. split; [exact Hsz | constructor; [exact Hs | constructor]].
Qed.

Lemma register_then_dispatch_witness :
  emu_handler (fun h i _ m => Done (h =? 3, m)) true (mkEmuContext 0x1ffc 4 true false 5 8)
    (mkMachine [mkEmuDevEntry EmuDeviceTVirtioNet 1 0 0x1000 2;
                mkEmuDevEntry EmuDeviceTVirtioBlk 2 0x1000 0x1000 3] false tt)
  = Done (true, mkMachine [mkEmuDevEntry EmuDeviceTVirtioNet 1 0 0x1000 2;
                           mkEmuDevEntry EmuDeviceTVirtioBlk 2 0x1000 0x1000 3] false tt).
Proof.
  apply (register_then_dispatch (fun h i _ m => Done (h =? 3, m)) true
           EmuDeviceTVirtioBlk 2 0x1000 0x1000 3
           (mkMachine [mkEmuDevEntry EmuDeviceTVirtioNet 1 0 0x1000 2] false tt)).
  - lia.
  - repeat constructor; simpl; lia.
  - reflexivity.
  - simpl. lia.
Defined.

End EmuMoreProofs.

Section LayoutProofs.
Import ReprC VcpuLayout.

Lemma gpr_index_range r : 1 <= gpr_index r <= 31.
Proof. destruct r; simpl; lia. Qed.

Lemma hyp_gpr_offset_eq r : hyp_gpr_offset r = 8 * gpr_index r.
Proof. unfold hyp_gpr_offset. vm_compute offset_of. simpl ty_size. lia. Qed.

Lemma guest_gpr_offset_eq r : guest_gpr_offset r = 296 + 8 * gpr_index r.
Proof. unfold guest_gpr_offset. vm_compute offset_of. simpl ty_size. lia. Qed.

(** The offsets of [hyp_gpr_offset] and [guest_gpr_offset] grow strictly
    with the register index, are multiples of 8 and stay inside the [gprs]
    array of their section (after slot 0, before the first CSR); and the 63
    offsets handed to the guest-switch assembly are pairwise distinct,
    8-aligned and each leaves room for a [u64] inside [VmCpuRegisters]. *)
Theorem gpr_offsets_layout :
  (forall r1 r2, gpr_index r1 < gpr_index r2 ->
     hyp_gpr_offset r1 < hyp_gpr_offset r2 /\ guest_gpr_offset r1 < guest_gpr_offset r2) /\
  (forall r,
     hyp_gpr_offset r mod 8 = 0 /\ guest_gpr_offset r mod 8 = 0 /\
     offset_of VmCpuRegisters_layout "hyp_regs" + offset_of HypervisorCpuState_layout "gprs"
       < hyp_gpr_offset r /\
     hyp_gpr_offset r + 8 <= hyp_csr_offset "sstatus" /\
     offset_of VmCpuRegisters_layout "guest_regs" + offset_of GuestCpuState_layout "gprs"
       < guest_gpr_offset r /\
     guest_gpr_offset r + 8 <= guest_csr_offset "sstatus") /\
  NoDup run_guest_operands /\
  Forall (fun o => o mod 8 = 0 /\ 0 <= o /\ o + 8 <= size_of VmCpuRegisters_layout)
    run_guest_operands.
Proof.
  split; [|split; [|split]].
  - intros r1 r2 H. rewrite !hyp_gpr_offset_eq, !guest_gpr_offset_eq. lia.
  - intros r. rewrite hyp_gpr_offset_eq, guest_gpr_offset_eq.
    pose proof (gpr_index_range r).
    vm_compute offset_of. unfold hyp_csr_offset, guest_csr_offset. vm_compute offset_of.
    repeat split; try lia.
    + rewrite Z.mul_comm. apply Z.mod_mul. lia.
    + replace (296 + 8 * gpr_index r) with ((37 + gpr_index r) * 8) by lia. apply Z.mod_mul. lia.
  - vm_compute run_guest_operands.
    repeat constructor;
      match goal with |- ~ In ?x ?l =>
        let Hin := fresh in intro Hin;
        assert (Hx : existsb (Z.eqb x) l = true)
          by (apply existsb_exists; exists x; split; [exact Hin | apply Z.eqb_refl]);
        vm_compute in Hx; discriminate
      end.
  - vm_compute. repeat constructor; discriminate.
Qed.

End LayoutProofs.

Section ConfigProofs.
Import ReprC BlkConfig.

Lemma load_le_shift f b k n :
  Blk.load_le f (b + k) n = Blk.load_le (fun j => f (b + j)) k n.
Proof.
  revert k. induction n as [|n IH]; intros k; simpl; [reflexivity|].
  rewrite <- Z.add_assoc, IH. reflexivity.
Qed.

Lemma load_le_ext f g a n :
  (forall i, a <= i < a + Z.of_nat n -> f i = g i) ->
  Blk.load_le f a n = Blk.load_le g a n.
Proof.
  revert a. induction n as [|n IH]; intros a H; simpl; [reflexivity|].
  rewrite (H a) by lia. rewrite (IH (a + 1)); [reflexivity|].
  intros i Hi. apply H. lia.
Qed.

Lemma mod_mul_split w b c :
  0 <= w -> 0 < b -> 0 < c -> w mod (b * c) = w mod b + b * ((w / b) mod c).
Proof.
  intros Hw Hb Hc.
  pose proof (Z.mod_mul_r w b c ltac:(lia) ltac:(lia)) as H.
  rewrite Z.quot_div_nonneg in H by lia.
  rewrite (Z.rem_mod_nonneg (w / b) c) in H by (try apply Z.div_pos; lia).
  rewrite (Z.rem_mod_nonneg w b) in H by lia.
  rewrite (Z.rem_mod_nonneg w (b * c)) in H by nia.
  exact H.
Qed.

Lemma load_le_bytes v k n :
  0 <= v -> 0 <= k ->
  Blk.load_le (fun j => (v / 256 ^ j) mod 256) k n = (v / 256 ^ k) mod 256 ^ Z.of_nat n.
Proof.
  intros Hv. revert k. induction n as [|n IH]; intros k Hk.
  - simpl. rewrite Z.mod_1_r. reflexivity.
  - cbn [Blk.load_le]. rewrite IH by lia.
    rewrite Z.pow_add_r, <- Z.div_div by lia. rewrite Z.pow_1_r.
    rewrite Nat2Z.inj_succ, Z.pow_succ_r by lia.
    rewrite mod_mul_split; [reflexivity | | lia | apply Z.pow_pos_nonneg; lia].
    apply Z.div_pos; [lia | apply Z.pow_pos_nonneg; lia].
Qed.

Lemma size_of_BlkDescInner : size_of BlkDescInner_layout = 72.
Proof. reflexivity. Qed.

Lemma offset_data_read ovf base d rest k :
  0x1000 <= base -> 0 <= k -> base + k < USIZE_MOD ->
  offset_data ovf base d rest k = Done (Blk.load_le (desc_mem base d rest) (base + k) 4).
Proof.
  intros Hb Hk Hu. unfold offset_data, start_addr.
  replace (offset_of BlkDescInner_layout "capacity") with 0 by reflexivity.
  rewrite Z.add_0_r. unfold Blk.usize_add.
  destruct (Z.ltb_spec (base + k) USIZE_MOD); [|lia]. simpl.
  destruct (Z.ltb_spec (base + k) 0x1000); [lia|]. reflexivity.
Qed.

Lemma load_desc base d rest k :
  0 <= k -> k + 4 <= 72 ->
  Blk.load_le (desc_mem base d rest) (base + k) 4 =
  Blk.load_le (fun j => match byte_at (leaves d) j with
                        | Some b => b | None => rest (base + j) end) k 4.
Proof.
  intros Hk Hk4. rewrite load_le_shift. apply load_le_ext.
  intros i Hi. simpl in Hi. unfold desc_mem. rewrite size_of_BlkDescInner.
  destruct (Z.leb_spec base (base + i)), (Z.ltb_spec (base + i) (base + 72)); try lia.
  simpl. replace (base + i - base) with i by lia. reflexivity.
Qed.

Lemma capacity_bytes bsize j :
  0 <= j < 8 ->
  byte_at (leaves (cfg_init bsize BlkDescInner_default)) j = Some ((bsize / 256 ^ j) mod 256).
Proof.
  intros Hj. unfold leaves. cbn [app].
  replace (offset_of BlkDescInner_layout "capacity") with 0 by reflexivity.
  unfold byte_at at 1. cbn [capacity cfg_init].
  destruct (Z.leb_spec 0 j), (Z.ltb_spec j (0 + 8)); try lia.
  rewrite Z.sub_0_r. reflexivity.
Qed.

(** [BlkDesc::offset_data] on the configuration written by
    [BlkDescInner::cfg_init(bsize)] over the default: a guest read at offset
    0 returns the low 32 bits of the capacity, at 4 its high 32 bits, at 8
    [size_max] = 128 * 4096, at 12 [seg_max] = 512, and 0 at every other
    4-aligned offset holding fields ([blk_size] is at 24, after 4 bytes of
    padding); the reads at 20 and 68 return the padding bytes, i.e. whatever
    memory holds there. *)
Theorem offset_data_after_cfg_init ovf base rest bsize :
  0x1000 <= base -> base + size_of BlkDescInner_layout <= USIZE_MOD ->
  0 <= bsize < USIZE_MOD ->
  offset_data ovf base (cfg_init bsize BlkDescInner_default) rest 0 = Done (bsize mod 2 ^ 32) /\
  offset_data ovf base (cfg_init bsize BlkDescInner_default) rest 4 = Done (bsize / 2 ^ 32) /\
  offset_data ovf base (cfg_init bsize BlkDescInner_default) rest 8 = Done BLOCKIF_SIZE_MAX /\
  offset_data ovf base (cfg_init bsize BlkDescInner_default) rest 12 = Done BLOCKIF_IOV_MAX /\
  Forall (fun k => offset_data ovf base (cfg_init bsize BlkDescInner_default) rest k = Done 0)
    [16; 24; 28; 32; 36; 40; 44; 48; 52; 56; 60; 64] /\
  offset_data ovf base (cfg_init bsize BlkDescInner_default) rest 20
    = Done (Blk.load_le rest (base + 20) 4) /\
  offset_data ovf base (cfg_init bsize BlkDescInner_default) rest 68
    = Done (Blk.load_le rest (base + 68) 4).
Proof.
  intros Hb Hs Hv. rewrite size_of_BlkDescInner in Hs.
  assert (R : forall k, 0 <= k -> k + 4 <= 72 ->
    offset_data ovf base (cfg_init bsize BlkDescInner_default) rest k =
    Done (Blk.load_le (fun j => match byte_at (leaves (cfg_init bsize BlkDescInner_default)) j with
                                | Some b => b | None => rest (base + j) end) k 4)).
  { intros k Hk Hk4. rewrite offset_data_read by lia. rewrite load_desc by lia. reflexivity. }
  assert (C : forall k, 0 <= k -> k + 4 <= 8 ->
    Blk.load_le (fun j => match byte_at (leaves (cfg_init bsize BlkDescInner_default)) j with
                          | Some b => b | None => rest (base + j) end) k 4 =
    (bsize / 256 ^ k) mod 256 ^ 4).
  { intros k Hk Hk4.
    transitivity (Blk.load_le (fun j => (bsize / 256 ^ j) mod 256) k 4);
      [| rewrite load_le_bytes by lia; reflexivity].
    apply load_le_ext. intros i Hi. simpl in Hi. rewrite capacity_bytes by lia. reflexivity. }
  split; [|split; [|split; [|split; [|split; [|split]]]]].
  - rewrite R, C by lia. f_equal. rewrite Z.pow_0_r, Z.div_1_r. reflexivity.
  - rewrite R, C by lia. f_equal.
    change (256 ^ 4) with (2 ^ 32). apply Z.mod_small. split.
    + apply Z.div_pos; lia.
    + apply Z.div_lt_upper_bound; [lia|]. unfold USIZE_MOD in Hv. lia.
  - rewrite R by lia. reflexivity.
  - rewrite R by lia. reflexivity.
  - repeat constructor; rewrite R by lia; reflexivity.
  - rewrite R by lia. f_equal. rewrite (load_le_shift rest base 20). apply load_le_ext.
    intros i Hi. simpl in Hi.
    assert (i = 20 \/ i = 21 \/ i = 22 \/ i = 23) as Hc by lia.
    destruct Hc as [-> | [-> | [-> | ->]]]; reflexivity.
  - rewrite R by lia. f_equal. rewrite (load_le_shift rest base 68). apply load_le_ext.
    intros i Hi. simpl in Hi.
    assert (i = 68 \/ i = 69 \/ i = 70 \/ i = 71) as Hc by lia.
    destruct Hc as [-> | [-> | [-> | ->]]]; reflexivity.
Qed.

Lemma offset_data_after_cfg_init_witness :
  offset_data true 0x80200000 (cfg_init 32 BlkDescInner_default) (fun _ => 0xFF) 0 = Done (32 mod 2 ^ 32) /\
  offset_data true 0x80200000 (cfg_init 32 BlkDescInner_default) (fun _ => 0xFF) 4 = Done (32 / 2 ^ 32) /\
  offset_data true 0x80200000 (cfg_init 32 BlkDescInner_default) (fun _ => 0xFF) 8 = Done BLOCKIF_SIZE_MAX /\
  offset_data true 0x80200000 (cfg_init 32 BlkDescInner_default) (fun _ => 0xFF) 12 = Done BLOCKIF_IOV_MAX /\
  Forall (fun k => offset_data true 0x80200000 (cfg_init 32 BlkDescInner_default) (fun _ => 0xFF) k = Done 0)
    [16; 24; 28; 32; 36; 40; 44; 48; 52; 56; 60; 64] /\
  offset_data true 0x80200000 (cfg_init 32 BlkDescInner_default) (fun _ => 0xFF) 20
    = Done (Blk.load_le (fun _ => 0xFF) (0x80200000 + 20) 4) /\
  offset_data true 0x80200000 (cfg_init 32 BlkDescInner_default) (fun _ => 0xFF) 68
    = Done (Blk.load_le (fun _ => 0xFF) (0x80200000 + 68) 4).
Proof.
  apply offset_data_after_cfg_init.
  - lia.
  - rewrite size_of_BlkDescInner. unfold USIZE_MOD. lia.
  - unfold USIZE_MOD. lia.
Defined.

End ConfigProofs.

Section DevProofs.
Import BlkConfig Dev.

Lemma testbit_shiftl_1 k n : 0 <= k -> Z.testbit (Z.shiftl 1 k) n = (k =? n).
Proof.
  intros Hk. rewrite Z.shiftl_mul_pow2 by exact Hk. rewrite Z.mul_1_l.
  apply Z.pow2_bits_eqb. exact Hk.
Qed.

(** [VirtDevInner::init]: for [Block] it keeps [activated] and
    [generation], records the type, installs a fresh configuration of 32
    sectors with [size_max] = 128 * 4096 and [seg_max] = 512, and ORs the
    size-max (bit 1), seg-max (bit 2) and version-1 (bit 32) feature bits
    into the feature word, so that a second [init(Block)] changes nothing;
    for any other type it panics. *)
Theorem virtdev_init (d : VirtDevInner) :
  (match init d Block with
   | Done d' =>
       dev_type d' = Block /\ activated d' = activated d /\ generation d' = generation d /\
       (forall n, Z.testbit (features d') n =
                  Z.testbit (features d) n || (n =? 1) || (n =? 2) || (n =? 32)) /\
       match desc d' with
       | BlkDesc i => capacity i = 32 /\ size_max i = BLOCKIF_SIZE_MAX /\
                      seg_max i = BLOCKIF_IOV_MAX /\ i = cfg_init 32 BlkDescInner_default
       | DescNone => False
       end /\
       init d' Block = Done d'
   | _ => False
   end) /\
  (forall t, match t with Block => True | _ => init d t = Panicked wrong_type_msg end).
Proof.
  split.
  - unfold init. cbn [dev_type activated generation features desc].
    split; [reflexivity|]. split; [reflexivity|]. split; [reflexivity|]. split.
    + intros n. rewrite !Z.lor_spec. unfold VIRTIO_BLK_F_SIZE_MAX, VIRTIO_BLK_F_SEG_MAX,
        VIRTIO_F_VERSION_1. rewrite !testbit_shiftl_1 by lia.
      rewrite (Z.eqb_sym 1 n), (Z.eqb_sym 2 n), (Z.eqb_sym 32 n).
      destruct (Z.testbit (features d) n), (n =? 1), (n =? 2), (n =? 32); reflexivity.
    + split; [repeat split; reflexivity|].
      rewrite <- Z.lor_assoc, Z.lor_diag. reflexivity.
  - intros t. destruct t; reflexivity.
Qed.

End DevProofs.

Section BlkIoProofs.
Import Blk BlkSpec.

Lemma usize_add_ok ovf a b : a + b < USIZE_MOD -> usize_add ovf a b = Done (a + b).
Proof. intros H. unfold usize_add. destruct (Z.ltb_spec (a + b) USIZE_MOD); [reflexivity | lia]. Qed.



Lemma exceed_capacity_eq : exceed_capacity = 16384.
Proof. reflexivity. Qed.

Lemma blk_read_ok ovf off cnt buf m :
  0 <= off -> 0 <= cnt -> off + cnt < exceed_capacity ->
  blk_read ovf off cnt buf m =
    Done (true, set_mem m (copy_nonoverlapping (disk m) off (mem m) buf cnt)).
Proof.
  intros Ho Hc Hl. rewrite exceed_capacity_eq in Hl. unfold blk_read.
  rewrite usize_add_ok by (unfold USIZE_MOD; lia). simpl. rewrite exceed_capacity_eq.
  destruct (Z.leb_spec 16384 (off + cnt)); [lia|].
  destruct (Z.leb_spec 16384 off); [lia | reflexivity].
Qed.

Lemma blk_read_full ovf off cnt buf m :
  exceed_capacity <= off + cnt < USIZE_MOD -> blk_read ovf off cnt buf m = Done (false, m).
Proof.
  intros Hl. unfold blk_read. rewrite usize_add_ok by lia. simpl.
  destruct (Z.leb_spec exceed_capacity (off + cnt)); [reflexivity | lia].
Qed.

Lemma blk_write_ok ovf off cnt buf m :
  0 <= off -> 0 <= cnt -> off + cnt < exceed_capacity ->
  blk_write ovf off cnt buf m =
    Done (true, set_disk m (copy_nonoverlapping (mem m) buf (disk m) off cnt)).
Proof.
  intros Ho Hc Hl. rewrite exceed_capacity_eq in Hl. unfold blk_write.
  rewrite usize_add_ok by (unfold USIZE_MOD; lia). simpl. rewrite exceed_capacity_eq.
  destruct (Z.leb_spec 16384 (off + cnt)); [lia|].
  destruct (Z.leb_spec 16384 off); [lia | reflexivity].
Qed.

Lemma blk_write_full ovf off cnt buf m :
  exceed_capacity <= off + cnt < USIZE_MOD -> blk_write ovf off cnt buf m = Done (false, m).
Proof.
  intros Hl. unfold blk_write. rewrite usize_add_ok by lia. simpl.
  destruct (Z.leb_spec exceed_capacity (off + cnt)); [reflexivity | lia].
Qed.

Lemma copy_in f src g dst cnt i :
  0 <= i < cnt -> copy_nonoverlapping f src g dst cnt (dst + i) = f (src + i).
Proof.
  intros Hi. unfold copy_nonoverlapping.
  destruct (Z.leb_spec dst (dst + i)), (Z.ltb_spec (dst + i) (dst + cnt)); try lia.
  simpl. f_equal. lia.
Qed.

Lemma copy_out f src g dst cnt a :
  ~ (dst <= a < dst + cnt) -> copy_nonoverlapping f src g dst cnt a = g a.
Proof.
  intros Ha. unfold copy_nonoverlapping.
  destruct (Z.leb_spec dst a), (Z.ltb_spec a (dst + cnt)); try reflexivity. lia.
Qed.

(** [FakeBlkDevice::blk_read] (no wrap-around of [offset + count]): it
    succeeds exactly when [offset + count] is below the 16384 bytes of the
    backing array, and then copies the [count] bytes at [offset] into the
    buffer and changes nothing else; otherwise it returns false and changes
    nothing. *)
Theorem blk_read_behaviour ovf off cnt buf m :
  0 <= off -> 0 <= cnt -> off + cnt < USIZE_MOD ->
  (off + cnt < SECTOR_BSIZE * SECTORS_NUM ->
     exists m', blk_read ovf off cnt buf m = Done (true, m') /\
       vq m' = vq m /\ disk m' = disk m /\
       (forall i, 0 <= i < cnt -> mem m' (buf + i) = disk m (off + i)) /\
       (forall a, ~ (buf <= a < buf + cnt) -> mem m' a = mem m a)) /\
  (SECTOR_BSIZE * SECTORS_NUM <= off + cnt -> blk_read ovf off cnt buf m = Done (false, m)).
Proof.
  intros Ho Hc Hu. split.
  - intros Hl. eexists. split; [apply blk_read_ok; assumption|].
    simpl. split; [reflexivity | split; [reflexivity | split]].
    + intros i Hi. apply copy_in. exact Hi.
    + intros a Ha. apply copy_out. exact Ha.
  - intros Hl. apply blk_read_full. split; assumption.
Qed.

Lemma blk_read_behaviour_witness :
  (exists m', blk_read true 15871 512 0x2000 (Scenarios.round_trip_machine 31) = Done (true, m') /\
     vq m' = vq (Scenarios.round_trip_machine 31) /\
     disk m' = disk (Scenarios.round_trip_machine 31) /\
     (forall i, 0 <= i < 512 -> mem m' (0x2000 + i) = disk (Scenarios.round_trip_machine 31) (15871 + i)) /\
     (forall a, ~ (0x2000 <= a < 0x2000 + 512) -> mem m' a = mem (Scenarios.round_trip_machine 31) a)).
Proof.
  apply (blk_read_behaviour true 15871 512 0x2000 (Scenarios.round_trip_machine 31));
    unfold USIZE_MOD, SECTOR_BSIZE, SECTORS_NUM; lia.
Defined.

(** [FakeBlkDevice::blk_write] (no wrap-around of [offset + count]): it
    succeeds exactly when [offset + count] is below the 16384 bytes of the
    backing array, and then copies the [count] bytes of the buffer to
    [offset] of the backing array and changes nothing else; otherwise it
    returns false and changes nothing. *)
Theorem blk_write_behaviour ovf off cnt buf m :
  0 <= off -> 0 <= cnt -> off + cnt < USIZE_MOD ->
  (off + cnt < SECTOR_BSIZE * SECTORS_NUM ->
     exists m', blk_write ovf off cnt buf m = Done (true, m') /\
       vq m' = vq m /\ mem m' = mem m /\
       (forall i, 0 <= i < cnt -> disk m' (off + i) = mem m (buf + i)) /\
       (forall x, ~ (off <= x < off + cnt) -> disk m' x = disk m x)) /\
  (SECTOR_BSIZE * SECTORS_NUM <= off + cnt -> blk_write ovf off cnt buf m = Done (false, m)).
Proof.
  intros Ho Hc Hu. split.
  - intros Hl. eexists. split; [apply blk_write_ok; assumption|].
    simpl. split; [reflexivity | split; [reflexivity | split]].
    + intros i Hi. apply copy_in. exact Hi.
    + intros a Ha. apply copy_out. exact Ha.
  - intros Hl. apply blk_write_full. split; assumption.
Qed.

Lemma blk_write_behaviour_witness :
  blk_write true 15872 512 0x1000 (Scenarios.round_trip_machine 31)
  = Done (false, Scenarios.round_trip_machine 31).
Proof.
  apply (blk_write_behaviour true 15872 512 0x1000 (Scenarios.round_trip_machine 31));
    unfold USIZE_MOD, SECTOR_BSIZE, SECTORS_NUM; lia.
Defined.

End BlkIoProofs.

Section BlkProcessProofs.
Import Blk BlkSpec.

Lemma blk_read_vq ovf off cnt buf m b m' :
  blk_read ovf off cnt buf m = Done (b, m') -> vq m' = vq m /\ disk m' = disk m.
Proof.
  unfold blk_read. destruct (usize_add ovf off cnt); simpl; try discriminate.
  destruct (exceed_capacity <=? a); [intros H; inversion H; auto|].
  destruct (exceed_capacity <=? off); [discriminate | intros H; inversion H; auto].
Qed.

Lemma blk_write_vq ovf off cnt buf m b m' :
  blk_write ovf off cnt buf m = Done (b, m') -> vq m' = vq m /\ mem m' = mem m.
Proof.
  unfold blk_write. destruct (usize_add ovf off cnt); simpl; try discriminate.
  destruct (exceed_capacity <=? a); [intros H; inversion H; auto|].
  destruct (exceed_capacity <=? off); [discriminate | intros H; inversion H; auto].
Qed.

Lemma blk_iovs_vq ovf rtype off l wl m wl' m' :
  blk_iovs ovf rtype off l wl m = Done (wl', m') -> vq m' = vq m.
Proof.
  revert off wl m. induction l as [|v l IH]; intros off wl m H; simpl in H.
  - inversion H; reflexivity.
  - destruct (rtype =? VIRTIO_BLK_T_IN).
    + destruct (blk_read ovf off (len v) (data_bg v) m) as [[b m1]| |] eqn:E;
        simpl in H; try discriminate.
      destruct (u32_add ovf wl (len v)); simpl in H; try discriminate.
      destruct (usize_add ovf off (len v)); simpl in H; try discriminate.
      rewrite (IH _ _ _ H). apply (blk_read_vq _ _ _ _ _ _ _ E).
    + destruct (blk_write ovf off (len v) (data_bg v) m) as [[b m1]| |] eqn:E;
        simpl in H; try discriminate.
      destruct (usize_add ovf off (len v)); simpl in H; try discriminate.
      rewrite (IH _ _ _ H). apply (blk_write_vq _ _ _ _ _ _ _ E).
Qed.

Lemma execute_req_vq ovf idb r m wl m1 :
  execute_req ovf idb r m = Done (wl, m1) -> vq m1 = vq m.
Proof.
  unfold execute_req.
  destruct ((req_type r =? VIRTIO_BLK_T_IN) || (req_type r =? VIRTIO_BLK_T_OUT)).
  - destruct (usize_mul ovf (sector r) SECTOR_BSIZE); simpl; try discriminate.
    apply blk_iovs_vq.
  - destruct (req_type r =? VIRTIO_BLK_T_FLUSH); [intros H; inversion H; reflexivity|].
    destruct (req_type r =? VIRTIO_BLK_T_GET_ID); [|discriminate].
    destruct (iov r); [discriminate | intros H; inversion H; reflexivity].
Qed.

Lemma update_used_ring_true q l h q' :
  update_used_ring q l h = (true, q') ->
  used_ring q' = (used_ring q ++ [(l, h)])%list /\ queue_frame q q' /\
  last_avail_idx q' = last_avail_idx q /\ notify_enabled q' = notify_enabled q.
Proof.
  unfold update_used_ring. destruct (_ <? _)%nat; intros H; inversion H; subst.
  repeat split; reflexivity.
Qed.


Lemma process_true_gen ovf idb l m m' :
  process_blk_requests ovf idb l m = Done (true, m') ->
  exists U, used_ring (vq m') = (used_ring (vq m) ++ U)%list /\
    map snd U = map desc_chain_head_idx l /\ queue_frame (vq m) (vq m') /\
    last_avail_idx (vq m') = last_avail_idx (vq m) /\
    notify_enabled (vq m') = notify_enabled (vq m).
Proof.
  revert m. induction l as [|r l IH]; intros m H; simpl in H.
  - inversion H; subst. exists []. rewrite app_nil_r. repeat split; reflexivity.
  - destruct (execute_req ovf idb r m) as [[wl m1]| |] eqn:E; simpl in H; try discriminate.
    pose proof (execute_req_vq _ _ _ _ _ _ E) as Hv.
    destruct (update_used_ring (vq m1) wl (desc_chain_head_idx r)) as [[] q] eqn:U;
      [|inversion H].
    apply update_used_ring_true in U. destruct U as (Hu & (F1 & F2 & F3 & F4) & Hl & Hn).
    destruct (IH _ H) as (U' & Hu' & Hs & (G1 & G2 & G3 & G4) & Hl' & Hn').
    simpl in *. rewrite Hv in *.
    exists ((wl, desc_chain_head_idx r) :: U'). rewrite Hu', Hu, <- app_assoc.
    split; [reflexivity|]. split; [simpl; rewrite Hs; reflexivity|].
    repeat split; congruence.
Qed.











End BlkProcessProofs.

Section BlkRoundTripProofs.
Import Blk BlkSpec.






End BlkRoundTripProofs.

Section BlkGetIdProofs.
Import Blk BlkSpec.



End BlkGetIdProofs.

Section BlkWalkProofs.
Import Blk BlkSpec.

Lemma walk_chain_effect ovf vm_ipa2pa fuel :
  forall m idx hd node r m',
  walk_chain ovf vm_ipa2pa fuel m idx hd node = Done (r, m') ->
  match r with
  | None => m' = m
  | Some n =>
      desc_chain_head_idx n = desc_chain_head_idx node /\
      (exists new, iov n = (iov node ++ new)%list /\
                   (ovf = true -> iov_sum_up n = iov_sum_up node + iov_sum new)) /\
      exists a, m' = set_mem m (store_byte (mem m) a
        (if (1 <? req_type n) && negb (req_type n =? VIRTIO_BLK_T_GET_ID)
         then VIRTIO_BLK_S_UNSUPP else VIRTIO_BLK_S_OK))
  end.
Proof.
  induction fuel as [|fuel IH]; intros m idx hd node r m' H; [discriminate|].
  cbn [walk_chain] in H.
  destruct (desc_has_next (vq m) idx).
  - destruct hd.
    + destruct (desc_is_writable (vq m) idx); [inversion H; subst; reflexivity|].
      destruct (vm_ipa2pa (desc_addr (vq m) idx) =? 0); [inversion H; subst; reflexivity|].
      specialize (IH _ _ _ _ _ _ H). destruct r as [n|]; [|exact IH].
      destruct IH as (Hh & (new & Hi & Hs) & Ha). cbn [with_header desc_chain_head_idx iov iov_sum_up] in *.
      split; [exact Hh|]. split; [exists new; split; assumption | exact Ha].
    + destruct (Z.shiftr (Z.land (desc_flags (vq m) idx) VIRTQ_DESC_F_WRITE) 1 =? req_type node);
        [inversion H; subst; reflexivity|].
      destruct (vm_ipa2pa (desc_addr (vq m) idx) =? 0); [inversion H; subst; reflexivity|].
      destruct (usize_add ovf (iov_sum_up node)
                  (len (mkBlkIov (vm_ipa2pa (desc_addr (vq m) idx)) (desc_len (vq m) idx))))
        as [sum| |] eqn:Eu; simpl in H; try discriminate.
      specialize (IH _ _ _ _ _ _ H). destruct r as [n|]; [|exact IH].
      destruct IH as (Hh & (new & Hi & Hs) & Ha). cbn [push_iov desc_chain_head_idx iov iov_sum_up] in *.
      split; [exact Hh|]. split; [|exact Ha].
      exists (mkBlkIov (vm_ipa2pa (desc_addr (vq m) idx)) (desc_len (vq m) idx) :: new).
      rewrite Hi, <- app_assoc. split; [reflexivity|].
      intros Ho. rewrite (Hs Ho). subst ovf. unfold usize_add in Eu.
      cbn [len] in Eu. destruct (iov_sum_up node + desc_len (vq m) idx <? USIZE_MOD); [injection Eu as <- | discriminate]. unfold iov_sum. cbn [fold_right len]. lia.
  - destruct (negb (desc_is_writable (vq m) idx)); [inversion H; subst; reflexivity|].
    destruct (vm_ipa2pa (desc_addr (vq m) idx) =? 0); [inversion H; subst; reflexivity|].
    inversion H; subst. split; [reflexivity|]. split.
    + exists []. rewrite app_nil_r. split; [reflexivity | intros _; simpl; lia].
    + eexists. reflexivity.
Qed.

(** One walk of a descriptor chain from its head, as the handler starts it:
    if it aborts (the handler's [return false]) it has changed nothing; if
    it ends at a status descriptor, the parsed request names the chain's
    head, the only change is one status byte written to memory (2,
    "unsupported", for a request type above 1 other than GET_ID, so also for
    FLUSH; 0 otherwise), and with overflow checks on, the recorded total
    [iov_sum_up] is the total length of the I/O vector collected. *)
Theorem walk_chain_outcome ovf vm_ipa2pa fuel m idx r m' :
  walk_chain ovf vm_ipa2pa fuel m idx true (start_node idx) = Done (r, m') ->
  (r = None -> m' = m) /\
  (forall n, r = Some n ->
     desc_chain_head_idx n = idx /\
     (ovf = true -> iov_sum_up n = iov_sum (iov n)) /\
     exists a, m' = set_mem m (store_byte (mem m) a
       (if (1 <? req_type n) && negb (req_type n =? VIRTIO_BLK_T_GET_ID)
        then VIRTIO_BLK_S_UNSUPP else VIRTIO_BLK_S_OK))).
Proof.
  intros H. apply walk_chain_effect in H. split.
  - intros ->. exact H.
  - intros n ->. destruct H as (Hh & (new & Hi & Hs) & Ha).
    split; [exact Hh|]. split; [|exact Ha].
    intros Ho. rewrite (Hs Ho), Hi. reflexivity.
Qed.

Lemma walk_chain_outcome_witness :
  exists n m', walk_chain true Scenarios.identity_ipa2pa 7 (Scenarios.round_trip_machine 30) 0 true
                 (start_node 0) = Done (Some n, m') /\
  ((Some n = None -> m' = Scenarios.round_trip_machine 30) /\
   (forall n0, Some n = Some n0 ->
      desc_chain_head_idx n0 = 0 /\
      (true = true -> iov_sum_up n0 = iov_sum (iov n0)) /\
      exists a, m' = set_mem (Scenarios.round_trip_machine 30)
        (store_byte (mem (Scenarios.round_trip_machine 30)) a
          (if (1 <? req_type n0) && negb (req_type n0 =? VIRTIO_BLK_T_GET_ID)
           then VIRTIO_BLK_S_UNSUPP else VIRTIO_BLK_S_OK)))).
Proof.
  destruct (walk_chain true Scenarios.identity_ipa2pa 7 (Scenarios.round_trip_machine 30) 0 true
              (start_node 0)) as [[[n|] m']| |] eqn:E;
    try (vm_compute in E; discriminate).
  exists n, m'. split; [reflexivity|].
  apply (walk_chain_outcome true Scenarios.identity_ipa2pa 7 (Scenarios.round_trip_machine 30) 0
           (Some n) m' E).
Defined.

End BlkWalkProofs.

Section BlkHandlerProofs.
Import Blk BlkSpec.

Lemma pending_done q a0 : (a0 <= last_avail_idx q)%nat -> pending q a0 = [].
Proof. intros H. unfold pending. replace (a0 - last_avail_idx q)%nat with 0%nat by lia. reflexivity. Qed.

Lemma pending_step r dt ar j ur uc ne a0 :
  (j < a0)%nat ->
  pending (mkVirtq r dt ar j ur uc ne) a0 =
    nth j ar 0 :: pending (mkVirtq r dt ar (S j) ur uc ne) a0.
Proof.
  intros H. unfold pending. cbn [last_avail_idx avail_ring].
  replace (a0 - j)%nat with (S (a0 - S j)) by lia. reflexivity.
Qed.

Lemma drain_end ovf vm_ipa2pa fuel a0 l m :
  drain ovf vm_ipa2pa fuel a0 None l m = Done (Some l, m).
Proof. destruct fuel; reflexivity. Qed.

Lemma drain_some ovf vm_ipa2pa fuel :
  forall a0 opt l m l' m',
  drain ovf vm_ipa2pa fuel a0 opt l m = Done (Some l', m') ->
  (forall h, opt = Some h -> exists j, last_avail_idx (vq m) = S j /\
       h = nth j (avail_ring (vq m)) 0 /\ (S j <= a0)%nat) ->
  exists added, l' = (l ++ added)%list /\
    map desc_chain_head_idx added =
      match opt with None => [] | Some h => h :: pending (vq m) a0 end /\
    used_ring (vq m') = used_ring (vq m) /\ queue_frame (vq m) (vq m') /\ disk m' = disk m /\
    last_avail_idx (vq m') = match opt with None => last_avail_idx (vq m) | Some _ => a0 end /\
    notify_enabled (vq m') = match opt with None => notify_enabled (vq m) | Some _ => true end.
Proof.
  induction fuel as [|fuel IH]; intros a0 opt l m l' m' H Hinv.
  - destruct opt as [h|]; cbn [drain] in H; [discriminate|].
    injection H as <- <-. exists []. rewrite app_nil_r. repeat split; reflexivity.
  - destruct opt as [h|]; cbn [drain] in H.
    2: { injection H as <- <-. exists []. rewrite app_nil_r. repeat split; reflexivity. }
    destruct (Hinv h eq_refl) as (j & Hl & Hh & Hj). clear Hinv.
    destruct m as [[r dt ar last ur uc ne] mm dd]. cbn in Hl, Hh. subst last h.
    unfold disable_notify, enable_notify, set_notify, check_avail_idx in H.
    cbn [vq last_avail_idx vq_ready desc_table avail_ring used_ring used_cap notify_enabled] in H.
    destruct (walk_chain ovf vm_ipa2pa _ _ _ true _) as [[[node|] m2]| |] eqn:W;
      cbn [bind] in H; try discriminate.
    apply walk_chain_effect in W. destruct W as (Hhd & _ & a & Hm2). subst m2.
    cbn [start_node desc_chain_head_idx] in Hhd.
    unfold pop_avail_desc_idx in H.
    destruct (Nat.eqb_spec (S j) a0) as [Ea | Ea].
    + cbn [set_mem set_vq vq last_avail_idx] in H.
      destruct (Nat.ltb_spec (S j) a0); [lia|].
      rewrite drain_end in H. injection H as <- <-.
      exists [finish_node node]. split; [reflexivity|].
      cbn. rewrite Hhd, pending_done by (cbn; lia). repeat split; try reflexivity. exact Ea.
    + cbn [set_mem set_vq vq last_avail_idx] in H.
      destruct (Nat.ltb_spec (S j) a0); [|lia].
      apply IH in H.
      * destruct H as (added & Hl' & Hm & Hu & (F1 & F2 & F3 & F4) & Hd & Hla & Hn).
        exists (finish_node node :: added). split; [rewrite Hl', <- app_assoc; reflexivity|].
        cbn [set_vq set_mem vq mem disk used_ring vq_ready desc_table avail_ring used_cap
             last_avail_idx notify_enabled] in *.
        split; [|repeat split; assumption].
        cbn [map]. rewrite Hm, (pending_step r dt ar (S j) ur uc ne a0) by assumption. cbn. rewrite Hhd. reflexivity.
      * intros h' Eh. injection Eh as <-. exists (S j). cbn. repeat split. lia.
Qed.


(** A notification the handler answers with true, on a queue whose consumer
    index is not past the producer index: every chain published since the
    last notification has been consumed (the consumer index now equals the
    producer index read at entry), each of them got exactly one completion,
    appended to the used ring in ring order, the read-only parts of the
    queue are untouched, and if at least one chain was pending, guest
    notifications are left enabled. *)
Theorem notify_handler_success ovf id_bytes vm_ipa2pa m m' :
  (last_avail_idx (vq m) <= avail_idx (vq m))%nat ->
  virtio_blk_notify_handler ovf id_bytes vm_ipa2pa m = Done (true, m') ->
  last_avail_idx (vq m') = avail_idx (vq m) /\ queue_frame (vq m) (vq m') /\
  (exists U, used_ring (vq m') = (used_ring (vq m) ++ U)%list /\
             map snd U = pending (vq m) (avail_idx (vq m))) /\
  ((last_avail_idx (vq m) < avail_idx (vq m))%nat -> notify_enabled (vq m') = true).
Proof.
  intros Hle H. unfold virtio_blk_notify_handler in H.
  destruct (vq_ready (vq m) =? 0); [discriminate|].
  destruct m as [[r dt ar last ur uc ne] mm dd]. unfold avail_idx in *.
  unfold pop_avail_desc_idx in H. cbn [vq last_avail_idx avail_ring] in H, Hle |- *.
  destruct (Nat.ltb_spec last (List.length ar)) as [Hlt | Hge].
  - destruct (drain ovf vm_ipa2pa _ _ _ _ _) as [[[l'|] m1]| |] eqn:D;
      cbn [bind] in H; try discriminate.
    destruct (process_blk_requests ovf id_bytes l' m1) as [[[] m2]| |] eqn:P;
      cbn [bind fst snd] in H; try discriminate.
    injection H as <-.
    apply drain_some in D;
      [|intros h Eh; injection Eh as <-; exists last; cbn; repeat split; lia].
    destruct D as (added & -> & Hm & Hu & (F1 & F2 & F3 & F4) & Hd & Hla & Hn).
    apply process_true_gen in P.
    destruct P as (U & HU & Hs & (G1 & G2 & G3 & G4) & Hl2 & Hn2).
    cbn [set_vq vq used_ring vq_ready desc_table avail_ring used_cap last_avail_idx
         notify_enabled] in *.
    split; [congruence|]. split; [repeat split; cbn; congruence|]. split.
    + exists U. split; [congruence|]. rewrite Hs. cbn [app]. rewrite Hm.
      rewrite (pending_step r dt ar last ur uc ne (List.length ar)) by exact Hlt. reflexivity.
    + intros _. congruence.
  - rewrite drain_end in H. cbn [bind process_blk_requests fst snd] in H.
    injection H as <-. cbn.
    split; [lia|]. split; [repeat split; reflexivity|]. split.
    + exists []. rewrite app_nil_r. split; [reflexivity|].
      rewrite pending_done by (cbn; lia). reflexivity.
    + intros Hc. lia.
Qed.

Lemma notify_handler_success_witness :
  exists m', virtio_blk_notify_handler true Scenarios.zero_mem Scenarios.identity_ipa2pa
               (Scenarios.round_trip_machine 30) = Done (true, m') /\
  (last_avail_idx (vq (Scenarios.round_trip_machine 30)) <=
     avail_idx (vq (Scenarios.round_trip_machine 30)))%nat /\
  last_avail_idx (vq m') = avail_idx (vq (Scenarios.round_trip_machine 30)) /\
  queue_frame (vq (Scenarios.round_trip_machine 30)) (vq m') /\
  (exists U, used_ring (vq m') = (used_ring (vq (Scenarios.round_trip_machine 30)) ++ U)%list /\
             map snd U = pending (vq (Scenarios.round_trip_machine 30))
                           (avail_idx (vq (Scenarios.round_trip_machine 30)))) /\
  ((last_avail_idx (vq (Scenarios.round_trip_machine 30)) <
      avail_idx (vq (Scenarios.round_trip_machine 30)))%nat -> notify_enabled (vq m') = true).
Proof.
  assert (Hle : (last_avail_idx (vq (Scenarios.round_trip_machine 30)) <=
     avail_idx (vq (Scenarios.round_trip_machine 30)))%nat) by (cbn; lia).
  assert (Hb : match virtio_blk_notify_handler true Scenarios.zero_mem Scenarios.identity_ipa2pa
                      (Scenarios.round_trip_machine 30) with
               | Done (b, _) => b = true | _ => False end) by (vm_compute; reflexivity).
  destruct (virtio_blk_notify_handler true Scenarios.zero_mem Scenarios.identity_ipa2pa
              (Scenarios.round_trip_machine 30)) as [[b m']| |] eqn:E; try contradiction.
  subst b. exists m'. split; [reflexivity|]. split; [exact Hle|].
  apply (notify_handler_success true Scenarios.zero_mem Scenarios.identity_ipa2pa
           (Scenarios.round_trip_machine 30) m' Hle E).
Defined.



End BlkHandlerProofs.
